(** * The CodeSystem import operation

    A shallow embedding of [importCodeSystem], [processProperties] and
    [resolveProperty] (the [CodeSystem/$import] operation of the server, listed
    in [packages/server/src/fhir/storage.test.ts]) as computations in a
    state-and-exception monad over the database handle, and the properties of
    the import proved on it.

    The SQL layer ([InsertQuery], [SelectQuery], the [pg] handle and the table
    schema) is used by these functions but defined elsewhere; its statements
    are modelled from the specification and marked as such. *)

From Stdlib Require Import ZArith Ascii String List Lia.
From Stdlib.Strings Require Import Byte.
From stdpp Require Import base option list strings gmap.

Local Open Scope Z_scope.
Local Open Scope string_scope.
Local Open Scope list_scope.

(** ** FHIR values read by the import *)

(** One entry of [CodeSystem.property]. *)
Record CodeSystemProperty := mkCodeSystemProperty {
  prop_code : string;
  prop_uri : option string;
  prop_type : string;
  prop_description : option string
}.

(** The [CodeSystem] resource, restricted to the members the import reads. *)
Record CodeSystem := mkCodeSystem {
  cs_id : string;
  cs_url : string;
  hierarchyMeaning : option string;
  cs_property : option (list CodeSystemProperty)
}.

(** A FHIR [Coding] of the [concept] parameter.  The outer parameter
    validation rejects concepts without a code, so [code] is a string. *)
Record Coding := mkCoding {
  concept_code : string;
  concept_display : option string
}.

(** [ImportedProperty] of the source. *)
Record ImportedProperty := mkImportedProperty {
  ip_code : string;
  ip_property : string;
  ip_value : string
}.

(** ** Persistent rows *)

Record CodingRow := mkCodingRow {
  coding_id : Z;
  coding_system : string;
  coding_code : string;
  coding_display : option string
}.

Record PropertyRow := mkPropertyRow {
  property_id : Z;
  property_system : string;
  property_code : string;
  property_type : string;
  property_uri : option string;
  property_description : option string
}.

Record CodingPropertyRow := mkCodingPropertyRow {
  cp_coding : Z;
  cp_property : Z;
  cp_value : string;
  cp_target : option Z
}.

(** Modelled from the spec: the relational store (schema and id sequences are
    not in the sources).  The three tables are row lists in insertion order;
    the two counters are the sequences that hand out the server-assigned ids
    of [Coding] and [CodeSystem_Property]. *)
Record Tables := mkTables {
  Coding_rows : list CodingRow;
  CodeSystem_Property_rows : list PropertyRow;
  Coding_Property_rows : list CodingPropertyRow;
  Coding_seq : Z;
  CodeSystem_Property_seq : Z
}.

(** Modelled from the spec: the database handle returned by [getClient()],
    one connection (section 2 of the specification).  [committed] is the
    durable state, [pending] the working copy of the transaction that is open
    on the connection, if any. *)
Record Db := mkDb {
  committed : Tables;
  pending : option Tables
}.

Definition empty_tables : Tables := mkTables [] [] [] 1 1.
Definition empty_db : Db := mkDb empty_tables None.

(** What a statement run on the handle sees. *)
Definition visible (d : Db) : Tables :=
  match pending d with
  | Some t => t
  | None => committed d
  end.

(** A writing statement: inside a transaction it changes the working copy,
    outside it is committed at once. *)
Definition db_write (f : Tables → Tables) (d : Db) : Db :=
  match pending d with
  | Some t => mkDb (committed d) (Some (f t))
  | None => mkDb (f (committed d)) None
  end.

(** ** Errors and the monad of database computations *)

(** [badRequest(msg)] wrapped in an [OperationOutcomeError]. *)
Inductive OperationOutcomeError :=
| badRequest (diagnostics : string).

Inductive Result (A : Type) :=
| Ok (a : A)
| Throw (e : OperationOutcomeError).
Arguments Ok {A} a.
Arguments Throw {A} e.

Definition M (A : Type) : Type := Db → Result A * Db.

Definition ret {A} (a : A) : M A := fun d => (Ok a, d).
Definition throw {A} (e : OperationOutcomeError) : M A := fun d => (Throw e, d).
Definition bind {A B} (m : M A) (k : A → M B) : M B :=
  fun d =>
    match m d with
    | (Ok a, d') => k a d'
    | (Throw e, d') => (Throw e, d')
    end.

Notation "x <- m ;; k" := (bind m (fun x => k))
  (at level 100, m at next level, right associativity, only parsing).
Notation "m ;;; k" := (bind m (fun _ => k))
  (at level 100, right associativity, only parsing).

(** [for (const x of xs) { await body(x) }] *)
Fixpoint for_of {A} (xs : list A) (body : A → M unit) : M unit :=
  match xs with
  | [] => ret tt
  | x :: rest => body x ;;; for_of rest body
  end.

(** ** The SQL statements the import issues *)

Definition coding_matches (sys c : string) (r : CodingRow) : bool :=
  String.eqb (coding_system r) sys && String.eqb (coding_code r) c.

Definition property_matches (sys c : string) (r : PropertyRow) : bool :=
  String.eqb (property_system r) sys && String.eqb (property_code r) c.

Definition cp_conflicts (new old : CodingPropertyRow) : bool :=
  Z.eqb (cp_coding old) (cp_coding new)
  && Z.eqb (cp_property old) (cp_property new)
  && String.eqb (cp_value old) (cp_value new).

Definition set_display (sys c : string) (disp : option string) (r : CodingRow)
  : CodingRow :=
  if coding_matches sys c r
  then mkCodingRow (coding_id r) (coding_system r) (coding_code r) disp
  else r.

(** Modelled from the spec: [InsertQuery('Coding', [row]).mergeOnConflict(['system','code'])],
    insert the row or, when a row with the same [(system, code)] is stored,
    set its other column [display] to the new value. *)
Definition merge_Coding (sys c : string) (disp : option string) (t : Tables)
  : Tables :=
  if existsb (coding_matches sys c) (Coding_rows t)
  then mkTables (map (set_display sys c disp) (Coding_rows t))
         (CodeSystem_Property_rows t) (Coding_Property_rows t)
         (Coding_seq t) (CodeSystem_Property_seq t)
  else mkTables (Coding_rows t ++ [mkCodingRow (Coding_seq t) sys c disp])
         (CodeSystem_Property_rows t) (Coding_Property_rows t)
         (Coding_seq t + 1) (CodeSystem_Property_seq t).

(** Modelled from the spec: a plain [InsertQuery('CodeSystem_Property', [row])];
    the row gets the next id of the sequence. *)
Definition add_CodeSystem_Property (sys c ty : string) (uri descr : option string)
  (t : Tables) : Tables :=
  mkTables (Coding_rows t)
    (CodeSystem_Property_rows t
       ++ [mkPropertyRow (CodeSystem_Property_seq t) sys c ty uri descr])
    (Coding_Property_rows t)
    (Coding_seq t) (CodeSystem_Property_seq t + 1).

(** Modelled from the spec: [InsertQuery('Coding_Property', [row]).ignoreOnConflict()],
    with the unique key [(coding, property, value)] of section 4.5. *)
Definition ignore_Coding_Property (row : CodingPropertyRow) (t : Tables) : Tables :=
  if existsb (cp_conflicts row) (Coding_Property_rows t)
  then t
  else mkTables (Coding_rows t) (CodeSystem_Property_rows t)
         (Coding_Property_rows t ++ [row])
         (Coding_seq t) (CodeSystem_Property_seq t).

(** Modelled from the spec: [db.query('BEGIN')].  On a connection that is
    already inside a transaction the statement changes nothing. *)
Definition query_BEGIN : M unit :=
  fun d =>
    match pending d with
    | Some _ => (Ok tt, d)
    | None => (Ok tt, mkDb (committed d) (Some (committed d)))
    end.

(** Modelled from the spec: [db.query('COMMIT')]. *)
Definition query_COMMIT : M unit :=
  fun d => (Ok tt, mkDb (visible d) None).

(** Modelled from the spec: the first row of
    [new SelectQuery('Coding').column('id').where('system','=',sys).where('code','=',c)]
    and its [id], that is [(await ...execute(db))[0]?.id]. *)
Definition select_Coding_id (sys c : string) : M (option Z) :=
  fun d => (Ok (coding_id <$> find (coding_matches sys c) (Coding_rows (visible d))), d).

(** Modelled from the spec: the first row of
    [new SelectQuery('CodeSystem_Property').column('id').where('system','=',sys).where('code','=',c)],
    that is [(await ...execute(db))[0]]. *)
Definition select_CodeSystem_Property (sys c : string) : M (option Z) :=
  fun d =>
    (Ok (property_id <$>
           find (property_matches sys c) (CodeSystem_Property_rows (visible d))), d).

Definition insert_Coding_merge (sys c : string) (disp : option string) : M unit :=
  fun d => (Ok tt, db_write (merge_Coding sys c disp) d).

(** [InsertQuery('CodeSystem_Property', [row]).returnColumn('id')]: the id of
    the new row is returned. *)
Definition insert_CodeSystem_Property (sys c ty : string) (uri descr : option string)
  : M Z :=
  fun d =>
    (Ok (CodeSystem_Property_seq (visible d)),
     db_write (add_CodeSystem_Property sys c ty uri descr) d).

Definition insert_Coding_Property_ignore (row : CodingPropertyRow) : M unit :=
  fun d => (Ok tt, db_write (ignore_Coding_Property row) d).

(** ** The import *)

Definition parentProperty : string :=
  "http://hl7.org/fhir/concept-properties#parent".

(** JavaScript truthiness of a string that may be undefined. *)
Definition truthy_string (o : option string) : bool :=
  match o with
  | Some s => negb (String.eqb s "")
  | None => false
  end.

(** [codeSystem.property?.find((p) => p.code === code)] *)
Definition find_declared (codeSystem : CodeSystem) (c : string)
  : option CodeSystemProperty :=
  match cs_property codeSystem with
  | Some l => find (fun p => String.eqb (prop_code p) c) l
  | None => None
  end.

(** [code === codeSystem.hierarchyMeaning || (code === 'parent' && !codeSystem.hierarchyMeaning)] *)
Definition implicit_parent (codeSystem : CodeSystem) (c : string) : bool :=
  match hierarchyMeaning codeSystem with
  | Some h => String.eqb c h
  | None => false
  end
  || (String.eqb c "parent" && negb (truthy_string (hierarchyMeaning codeSystem))).

(** The first half of [resolveProperty]: the definition the code is resolved
    to, or the thrown outcome. *)
Definition property_definition (codeSystem : CodeSystem) (c : string)
  : Result CodeSystemProperty :=
  match find_declared codeSystem c with
  | Some prop => Ok prop
  | None =>
      if implicit_parent codeSystem c
      then Ok (mkCodeSystemProperty c (Some parentProperty) "code" None)
      else Throw (badRequest ("Unknown property: " +:+ c))
  end.

Definition resolveProperty (codeSystem : CodeSystem) (c : string) : M (Z * bool) :=
  match property_definition codeSystem c with
  | Throw e => throw e
  | Ok prop =>
      let isRelationship := String.eqb (prop_type prop) "code" in
      knownProp <- select_CodeSystem_Property (cs_id codeSystem) c ;;
      match knownProp with
      | Some known_id => ret (known_id, isRelationship)
      | None =>
          newProp <- insert_CodeSystem_Property (cs_id codeSystem) c
                      (prop_type prop) (prop_uri prop) (prop_description prop) ;;
          ret (newProp, isRelationship)
      end
  end.

(** The resolution cache, [Object.create(null)] used as a dictionary from
    strings to [{ id, isRelationship }]. *)
Abbreviation Cache := (gmap string (Z * bool)).

Definition cacheKey (codeSystem : CodeSystem) (propertyCode : string) : string :=
  cs_url codeSystem +:+ "|" +:+ propertyCode.

(** [let { id: propId, isRelationship } = cache[cacheKey] ?? {}; if (!propId) {...}] *)
Definition cached_property (codeSystem : CodeSystem) (propertyCode : string)
  (cache : Cache) : M (Z * bool * Cache) :=
  let resolve : M (Z * bool * Cache) :=
    r <- resolveProperty codeSystem propertyCode ;;
    ret (r, <[cacheKey codeSystem propertyCode := r]> cache) in
  match cache !! cacheKey codeSystem propertyCode with
  | Some (propId, isRelationship) =>
      if Z.eqb propId 0 then resolve else ret (propId, isRelationship, cache)
  | None => resolve
  end.

(** [targetId] when it is truthy: the value of [property.target]. *)
Definition truthy_id (o : option Z) : option Z :=
  match o with
  | Some i => if Z.eqb i 0 then None else Some i
  | None => None
  end.

(** The body of the loop of [processProperties]; the cache is the loop's
    mutable local. *)
Definition processProperty (codeSystem : CodeSystem) (imported : ImportedProperty)
  (cache : Cache) : M Cache :=
  codingId <- select_Coding_id (cs_id codeSystem) (ip_code imported) ;;
  match truthy_id codingId with
  | None =>
      throw (badRequest
               ("Unknown code: " +:+ cs_url codeSystem +:+ "|" +:+ ip_code imported))
  | Some codingId =>
      resolved <- cached_property codeSystem (ip_property imported) cache ;;
      let '(propId, isRelationship, cache') := resolved in
      target <- (if isRelationship : bool
                then targetId <- select_Coding_id (cs_id codeSystem) (ip_value imported) ;;
                     ret (truthy_id targetId)
                else ret None) ;;
      insert_Coding_Property_ignore
        (mkCodingPropertyRow codingId propId (ip_value imported) target) ;;;
      ret cache'
  end.

Fixpoint processProperties_from (cache : Cache) (codeSystem : CodeSystem)
  (importedProperties : list ImportedProperty) : M unit :=
  match importedProperties with
  | [] => ret tt
  | imported :: rest =>
      cache' <- processProperty codeSystem imported cache ;;
      processProperties_from cache' codeSystem rest
  end.

Definition processProperties (importedProperties : list ImportedProperty)
  (codeSystem : CodeSystem) : M unit :=
  processProperties_from ∅ codeSystem importedProperties.

(** [xs?.length] as a condition. *)
Definition has_length {A} (xs : option (list A)) : bool :=
  match xs with
  | Some (_ :: _) => true
  | _ => false
  end.

Definition importCodeSystem (codeSystem : CodeSystem)
  (concepts : option (list Coding)) (properties : option (list ImportedProperty))
  : M unit :=
  query_BEGIN ;;;
  (if has_length concepts
   then for_of (default [] concepts)
          (fun concept =>
             insert_Coding_merge (cs_id codeSystem)
               (concept_code concept) (concept_display concept))
   else ret tt) ;;;
  (if has_length properties
   then processProperties (default [] properties) codeSystem
   else ret tt) ;;;
  query_COMMIT.

(** ** Reference definitions used to state the properties *)

(** Replace the visible tables, keeping the transaction status. *)
Definition db_put (t : Tables) (d : Db) : Db := db_write (fun _ => t) d.

(** The property writer as section 4.5 words it when the cache is left out:
    every entry is resolved by the resolver.  It is compared with
    [processProperties] below. *)
Definition processProperty_nocache (codeSystem : CodeSystem)
  (imported : ImportedProperty) : M unit :=
  codingId <- select_Coding_id (cs_id codeSystem) (ip_code imported) ;;
  match truthy_id codingId with
  | None =>
      throw (badRequest
               ("Unknown code: " +:+ cs_url codeSystem +:+ "|" +:+ ip_code imported))
  | Some codingId =>
      resolved <- resolveProperty codeSystem (ip_property imported) ;;
      let '(propId, isRelationship) := resolved in
      target <- (if isRelationship : bool
                then targetId <- select_Coding_id (cs_id codeSystem) (ip_value imported) ;;
                     ret (truthy_id targetId)
                else ret None) ;;
      insert_Coding_Property_ignore
        (mkCodingPropertyRow codingId propId (ip_value imported) target)
  end.

Definition processProperties_nocache (importedProperties : list ImportedProperty)
  (codeSystem : CodeSystem) : M unit :=
  for_of importedProperties (processProperty_nocache codeSystem).

(** The id found for a code, when it is truthy. *)
Definition coding_lookup (sys c : string) (t : Tables) : option Z :=
  truthy_id (coding_id <$> find (coding_matches sys c) (Coding_rows t)).

Definition property_lookup (sys c : string) (t : Tables) : option Z :=
  property_id <$> find (property_matches sys c) (CodeSystem_Property_rows t).

(** What a reader learns about a code: absent, or present with its display. *)
Definition display_of (sys c : string) (t : Tables) : option (option string) :=
  coding_display <$> find (coding_matches sys c) (Coding_rows t).

(** The stored value row of a coding for a property and a value. *)
Definition value_row (codingId propId : Z) (v : string) (t : Tables)
  : option CodingPropertyRow :=
  find (cp_conflicts (mkCodingPropertyRow codingId propId v None))
    (Coding_Property_rows t).

Definition count_definitions (sys c : string) (t : Tables) : nat :=
  length (List.filter (property_matches sys c) (CodeSystem_Property_rows t)).

(** [t'] holds the rows of [t] and possibly later property definitions and
    property values; the concepts are the same. *)
Definition extends (t t' : Tables) : Prop :=
  Coding_rows t' = Coding_rows t
  ∧ (∃ l, CodeSystem_Property_rows t' = CodeSystem_Property_rows t ++ l)
  ∧ (∃ l, Coding_Property_rows t' = Coding_Property_rows t ++ l).

(** The code resolves to [(propId, isRelationship)] without a new row. *)
Definition resolved_in (codeSystem : CodeSystem) (c : string) (r : Z * bool)
  (t : Tables) : Prop :=
  ∃ prop, property_definition codeSystem c = Ok prop
          ∧ r.2 = String.eqb (prop_type prop) "code"
          ∧ property_lookup (cs_id codeSystem) c t = Some r.1.

(** Everything the writer does for the entry is already stored. *)
Definition stored (codeSystem : CodeSystem) (imported : ImportedProperty)
  (t : Tables) : Prop :=
  ∃ codingId r,
    coding_lookup (cs_id codeSystem) (ip_code imported) t = Some codingId
    ∧ resolved_in codeSystem (ip_property imported) r t
    ∧ is_Some (value_row codingId r.1 (ip_value imported) t).

(** The entries of the cache agree with the resolver. *)
Definition cache_ok (codeSystem : CodeSystem) (cache : Cache) (t : Tables) : Prop :=
  ∀ c r, cache !! cacheKey codeSystem c = Some r → resolved_in codeSystem c r t.

(** Server-assigned ids: positive for codings, pairwise distinct and below the
    sequence for property definitions. *)
Definition tables_ok (t : Tables) : Prop :=
  Forall (fun r => 0 < coding_id r) (Coding_rows t)
  ∧ 0 < Coding_seq t
  ∧ NoDup (property_id <$> CodeSystem_Property_rows t)
  ∧ Forall (fun r => property_id r < CodeSystem_Property_seq t)
      (CodeSystem_Property_rows t).

(** The row the writer builds for an entry, read off the tables. *)
Definition row_for (codeSystem : CodeSystem) (imported : ImportedProperty)
  (t : Tables) : option CodingPropertyRow :=
  match coding_lookup (cs_id codeSystem) (ip_code imported) t,
        property_definition codeSystem (ip_property imported),
        property_lookup (cs_id codeSystem) (ip_property imported) t with
  | Some codingId, Ok prop, Some propId =>
      Some (mkCodingPropertyRow codingId propId (ip_value imported)
              (if String.eqb (prop_type prop) "code"
               then coding_lookup (cs_id codeSystem) (ip_value imported) t
               else None))
  | _, _, _ => None
  end.

(** The effect of the concept loop of [importCodeSystem] on the tables. *)
Definition merge_all (sys : string) (concepts : list Coding) (t : Tables) : Tables :=
  fold_left
    (fun t concept => merge_Coding sys (concept_code concept) (concept_display concept) t)
    concepts t.

(** What the concept loop does to a row that is stored already. *)
Definition set_all (sys : string) (concepts : list Coding) (r : CodingRow) : CodingRow :=
  fold_left
    (fun r concept => set_display sys (concept_code concept) (concept_display concept) r)
    concepts r.

(** No two concepts of the batch give one code two displays. *)
Definition displays_agree (concepts : list Coding) : Prop :=
  ∀ x y, x ∈ concepts → y ∈ concepts →
         concept_code x = concept_code y → concept_display x = concept_display y.

(** The string holds the separator of the cache keys. *)
Fixpoint has_bar (s : string) : bool :=
  match s with
  | EmptyString => false
  | String a rest => Ascii.eqb a "|"%char || has_bar rest
  end.

(** Position of the first concept with the given code. *)
Fixpoint index_of (c : string) (concepts : list Coding) : option nat :=
  match concepts with
  | [] => None
  | x :: rest =>
      if String.eqb (concept_code x) c then Some 0%nat
      else S <$> index_of c rest
  end.

(** The target concept stands before the owning concept in the batch. *)
Definition appears_earlier (target owner : string) (concepts : list Coding) : bool :=
  match index_of target concepts, index_of owner concepts with
  | Some i, Some j => Nat.ltb i j
  | _, _ => false
  end.

(** Members every ordinary JavaScript object inherits from [Object.prototype]. *)
Definition builtin_members : list string :=
  ["__proto__"; "constructor"; "toString"; "valueOf"; "hasOwnProperty";
   "isPrototypeOf"; "propertyIsEnumerable"; "toLocaleString";
   "__defineGetter__"; "__defineSetter__"; "__lookupGetter__";
   "__lookupSetter__"].

(** ** The request handler of the import *)

(** [CodeSystemImportParameters] of the source. *)
Record CodeSystemImportParameters := mkParameters {
  param_system : string;
  param_concept : option (list Coding);
  param_property : option (list ImportedProperty)
}.

(** What the handler sends: [sendOutcome(res, outcome)], or
    [sendOutputParameters(operation, res, allOk, codeSystem)]. *)
Inductive Response :=
| sendOutcome (outcome : OperationOutcomeError)
| sendOutputParameters (codeSystem : CodeSystem).

(** [codeSystemImportHandler], from the point where [requireSuperAdmin] and
    [parseInputParameters] have returned.  [searchResources] is the search of
    the repository for the CodeSystems whose [url] equals the given one;
    [normalizeOperationOutcome] of a thrown [OperationOutcomeError] is its
    outcome. *)
Definition codeSystemImportHandler (searchResources : string → list CodeSystem)
  (params : CodeSystemImportParameters) (d : Db) : Response * Db :=
  match searchResources (param_system params) with
  | [] =>
      (sendOutcome (badRequest ("No CodeSystem found with URL " +:+ param_system params)), d)
  | _ :: _ :: _ =>
      (sendOutcome (badRequest ("Ambiguous code system URI: " +:+ param_system params)), d)
  | [codeSystem] =>
      match importCodeSystem codeSystem (param_concept params) (param_property params) d with
      | (Throw err, d') => (sendOutcome err, d')
      | (Ok _, d') => (sendOutputParameters codeSystem, d')
      end
  end.

(** ** [streamToString] *)

(** The events a readable stream emits to the three listeners. *)
Inductive StreamEvent :=
| on_data (chunk : list Byte.byte)
| on_error (err : string)
| on_end.

Inductive PromiseState :=
| Pending
| Resolved (value : string)
| Rejected (err : string).

(** [resolve] and [reject] of a promise act once. *)
Definition settle (p result : PromiseState) : PromiseState :=
  match p with
  | Pending => result
  | _ => p
  end.

(** One event on the listeners of [streamToString]: the chunks collected so
    far and the state of the returned promise.  [utf8] is
    [buffer.toString('utf8')]. *)
Definition stream_listener (utf8 : list Byte.byte → string)
  (st : list (list Byte.byte) * PromiseState) (ev : StreamEvent)
  : list (list Byte.byte) * PromiseState :=
  match ev with
  | on_data chunk => (st.1 ++ [chunk], st.2)
  | on_error err => (st.1, settle st.2 (Rejected err))
  | on_end => (st.1, settle st.2 (Resolved (utf8 (concat st.1))))
  end.

Definition streamToString (utf8 : list Byte.byte → string) (events : list StreamEvent)
  : PromiseState :=
  (fold_left (stream_listener utf8) events ([], Pending)).2.

(** ** The ValueSet autocomplete *)

(** [ValueSetExpansionContains], with the members the component reads and the
    system that goes with the code. *)
Record ValueSetExpansionContains := mkContains {
  vs_system : option string;
  vs_code : option string;
  vs_display : option string
}.

Record ValueSetExpansion := mkExpansion {
  contains : option (list ValueSetExpansionContains)
}.

Record ValueSet := mkValueSet {
  expansion : option ValueSetExpansion
}.

Record AsyncAutocompleteOption := mkOption {
  opt_value : string;
  opt_label : string;
  opt_resource : ValueSetExpansionContains
}.

(** [toKey]; [stringify] is [JSON.stringify]. *)
Definition toKey (stringify : ValueSetExpansionContains → string)
  (element : ValueSetExpansionContains) : string :=
  match vs_code element with
  | Some c => c
  | None => stringify element
  end.

Definition getDisplay (stringify : ValueSetExpansionContains → string)
  (item : ValueSetExpansionContains) : string :=
  match vs_display item with
  | Some s => s
  | None => toKey stringify item
  end.

Definition toOption (stringify : ValueSetExpansionContains → string)
  (element : ValueSetExpansionContains) : AsyncAutocompleteOption :=
  mkOption (toKey stringify element) (getDisplay stringify element) element.

Definition createValue (input : string) : ValueSetExpansionContains :=
  mkContains None (Some input) (Some input).

(** [a === b] on codes that may be undefined. *)
Definition same_code (a b : option string) : bool :=
  match a, b with
  | Some x, Some y => String.eqb x y
  | None, None => true
  | _, _ => false
  end.

(** The body of the loop of [loadValues]. *)
Definition push_new (newData : list ValueSetExpansionContains)
  (valueSetElement : ValueSetExpansionContains) : list ValueSetExpansionContains :=
  if truthy_string (vs_code valueSetElement)
     && negb (existsb (fun item => same_code (vs_code item) (vs_code valueSetElement))
                newData)
  then newData ++ [valueSetElement]
  else newData.

(** What the promise of [loadValues] settles to: the options, or the
    [TypeError] of iterating over [undefined]. *)
Inductive Loaded :=
| loaded (newData : list ValueSetExpansionContains)
| TypeError.

(** [loadValues]; [valueSetExpand url filter] is the answer of
    [medplum.valueSetExpand({...expandParams, url, filter}, { signal })]. *)
Definition loadValues (binding : option string)
  (valueSetExpand : string → string → ValueSet) (input : string) : Loaded :=
  match binding with
  | Some url =>
      if String.eqb url "" then loaded []
      else
        match expansion (valueSetExpand url input) with
        | Some e =>
            match contains e with
            | Some valueSetElements => loaded (fold_left push_new valueSetElements [])
            | None => TypeError
            end
        | None => TypeError
        end
  | None => loaded []
  end.

(** ** Reference definitions for the further properties *)

(** The outcome the property pass reaches on tables that hold the concepts:
    the error of the first entry that cannot be written, if any. *)
Fixpoint first_error (codeSystem : CodeSystem) (t : Tables)
  (ps : list ImportedProperty) : option OperationOutcomeError :=
  match ps with
  | [] => None
  | imported :: rest =>
      match coding_lookup (cs_id codeSystem) (ip_code imported) t with
      | None =>
          Some (badRequest
                  ("Unknown code: " +:+ cs_url codeSystem +:+ "|" +:+ ip_code imported))
      | Some _ =>
          match property_definition codeSystem (ip_property imported) with
          | Throw e => Some e
          | Ok _ => first_error codeSystem t rest
          end
      end
  end.

(** The display the batch gives a code: that of the last concept with it. *)
Definition batch_display (c : string) (concepts : list Coding) : option (option string) :=
  fold_left
    (fun acc concept =>
       if String.eqb (concept_code concept) c then Some (concept_display concept) else acc)
    concepts None.

(** Id, system and code of a Coding row: what an import never changes. *)
Definition coding_key (r : CodingRow) : Z * string * string :=
  (coding_id r, coding_system r, coding_code r).

Definition count_codings (sys c : string) (t : Tables) : nat :=
  length (List.filter (coding_matches sys c) (Coding_rows t)).

Definition count_values (codingId propId : Z) (v : string) (t : Tables) : nat :=
  length (List.filter (cp_conflicts (mkCodingPropertyRow codingId propId v None))
            (Coding_Property_rows t)).

(** The ids of the Coding rows are pairwise distinct and below the sequence. *)
Definition coding_ids_ok (t : Tables) : Prop :=
  NoDup (coding_id <$> Coding_rows t)
  ∧ Forall (fun r => coding_id r < Coding_seq t) (Coding_rows t).

Definition ex_cs : CodeSystem := mkCodeSystem "cs-1" "http://ex/cs" None None.

(** * Properties *)

(** ** Scenarios of the specification, run on the embedding *)

Example scenario_S1 :
  importCodeSystem ex_cs
    (Some [mkCoding "A" None; mkCoding "B" None])
    (Some [mkImportedProperty "B" "parent" "A"]) empty_db
  = (Ok tt,
     mkDb (mkTables
             [mkCodingRow 1 "cs-1" "A" None; mkCodingRow 2 "cs-1" "B" None]
             [mkPropertyRow 1 "cs-1" "parent" "code" (Some parentProperty) None]
             [mkCodingPropertyRow 2 1 "A" (Some 1)]
             3 2) None).
Proof. vm_compute. reflexivity. Qed.

Example scenario_S2 :
  importCodeSystem ex_cs
    (Some [mkCoding "B" None])
    (Some [mkImportedProperty "B" "parent" "Z"]) empty_db
  = (Ok tt,
     mkDb (mkTables
             [mkCodingRow 1 "cs-1" "B" None]
             [mkPropertyRow 1 "cs-1" "parent" "code" (Some parentProperty) None]
             [mkCodingPropertyRow 1 1 "Z" None]
             2 2) None).
Proof. vm_compute. reflexivity. Qed.

Example scenario_S5 :
  importCodeSystem
    (mkCodeSystem "cs-1" "http://ex/cs" None
       (Some [mkCodeSystemProperty "severity" None "string" None]))
    (Some [mkCoding "A" None])
    (Some [mkImportedProperty "A" "severity" "high"]) empty_db
  = (Ok tt,
     mkDb (mkTables
             [mkCodingRow 1 "cs-1" "A" None]
             [mkPropertyRow 1 "cs-1" "severity" "string" None None]
             [mkCodingPropertyRow 1 1 "high" None]
             2 2) None).
Proof. vm_compute. reflexivity. Qed.

(** ** The database handle *)

Section Handle.
Implicit Types (d : Db) (t : Tables) (f : Tables → Tables).

Lemma visible_db_write f d : visible (db_write f d) = f (visible d).
Proof. unfold visible, db_write. destruct (pending d); reflexivity. Qed.

Lemma db_write_put f d : db_write f d = db_put (f (visible d)) d.
Proof. unfold db_put, db_write, visible. destruct (pending d); reflexivity. Qed.

Lemma db_put_visible d : db_put (visible d) d = d.
Proof.
  unfold db_put, db_write, visible. destruct d as [c [p|]]; reflexivity.
Qed.

Lemma db_put_put t t' d : db_put t (db_put t' d) = db_put t d.
Proof. unfold db_put, db_write. destruct (pending d); reflexivity. Qed.

Lemma db_write_id f d : f (visible d) = visible d → db_write f d = d.
Proof. intros H. rewrite db_write_put, H. apply db_put_visible. Qed.

End Handle.

(** ** Lists of rows *)

Section Rows.
Context {A : Type}.
Implicit Types (p : A → bool) (l : list A).

Lemma find_app_Some p l l' x : find p l = Some x → find p (l ++ l') = Some x.
Proof.
  induction l as [|y l IH]; simpl; [discriminate|].
  destruct (p y); auto.
Qed.

Lemma find_app_None p l l' : find p l = None → find p (l ++ l') = find p l'.
Proof.
  induction l as [|y l IH]; simpl; [reflexivity|].
  destruct (p y); [discriminate|auto].
Qed.

Lemma find_existsb p l : existsb p l = true ↔ is_Some (find p l).
Proof.
  induction l as [|y l IH]; simpl.
  - split; [discriminate|intros [x Hx]; discriminate].
  - destruct (p y); simpl; [split; eauto|exact IH].
Qed.

Lemma find_true p l x : find p l = Some x → p x = true ∧ x ∈ l.
Proof.
  induction l as [|y l IH]; simpl; [discriminate|].
  destruct (p y) eqn:E.
  - intros [= <-]. split; [exact E|left].
  - intros H. destruct (IH H). split; [assumption|right; assumption].
Qed.
End Rows.

Lemma truthy_id_nonzero i : i ≠ 0 → truthy_id (Some i) = Some i.
Proof. intros H. simpl. destruct (Z.eqb_spec i 0); [contradiction|reflexivity]. Qed.

(** ** The statements of the resolver and of the writer, unfolded *)

Lemma resolveProperty_eq codeSystem c d :
  resolveProperty codeSystem c d =
  match property_definition codeSystem c with
  | Throw e => (Throw e, d)
  | Ok prop =>
      match property_lookup (cs_id codeSystem) c (visible d) with
      | Some known => (Ok (known, String.eqb (prop_type prop) "code"), d)
      | None =>
          (Ok (CodeSystem_Property_seq (visible d), String.eqb (prop_type prop) "code"),
           db_write (add_CodeSystem_Property (cs_id codeSystem) c (prop_type prop)
                       (prop_uri prop) (prop_description prop)) d)
      end
  end.
Proof.
  unfold resolveProperty. destruct (property_definition codeSystem c); [|reflexivity].
  unfold bind, select_CodeSystem_Property, property_lookup.
  destruct (find _ _); reflexivity.
Qed.

Lemma processProperty_nocache_eq codeSystem imported d :
  processProperty_nocache codeSystem imported d =
  match coding_lookup (cs_id codeSystem) (ip_code imported) (visible d) with
  | None =>
      (Throw (badRequest
                ("Unknown code: " +:+ cs_url codeSystem +:+ "|" +:+ ip_code imported)), d)
  | Some codingId =>
      match resolveProperty codeSystem (ip_property imported) d with
      | (Throw e, d') => (Throw e, d')
      | (Ok (propId, isRelationship), d') =>
          (Ok tt,
           db_write
             (ignore_Coding_Property
                (mkCodingPropertyRow codingId propId (ip_value imported)
                   (if isRelationship
                    then coding_lookup (cs_id codeSystem) (ip_value imported) (visible d')
                    else None))) d')
      end
  end.
Proof.
  unfold processProperty_nocache, bind at 1, select_Coding_id, coding_lookup.
  destruct (truthy_id _); [|reflexivity].
  unfold bind at 1.
  destruct (resolveProperty _ _ d) as [[[propId isRel]|e] d']; [|reflexivity].
  destruct isRel; reflexivity.
Qed.

(** ** Growth of the tables during the property pass *)

Lemma extends_refl t : extends t t.
Proof.
  repeat split; try (exists []; rewrite app_nil_r; reflexivity).
Qed.

Lemma extends_trans t1 t2 t3 : extends t1 t2 → extends t2 t3 → extends t1 t3.
Proof.
  intros (Hc & [l Hp] & [m Hv]) (Hc' & [l' Hp'] & [m' Hv']).
  repeat split.
  - congruence.
  - exists (l ++ l'). rewrite Hp', Hp, app_assoc. reflexivity.
  - exists (m ++ m'). rewrite Hv', Hv, app_assoc. reflexivity.
Qed.

Lemma coding_lookup_extends sys c t t' :
  extends t t' → coding_lookup sys c t' = coding_lookup sys c t.
Proof. intros (Hc & _). unfold coding_lookup. rewrite Hc. reflexivity. Qed.

Lemma property_lookup_extends sys c t t' i :
  extends t t' → property_lookup sys c t = Some i → property_lookup sys c t' = Some i.
Proof.
  intros (_ & [l Hp] & _). unfold property_lookup. rewrite Hp.
  destruct (find _ (CodeSystem_Property_rows t)) as [r|] eqn:E; [|discriminate].
  intros H. rewrite (find_app_Some _ _ _ _ E). exact H.
Qed.

Lemma value_row_extends codingId propId v t t' r :
  extends t t' → value_row codingId propId v t = Some r
  → value_row codingId propId v t' = Some r.
Proof.
  intros (_ & _ & [l Hv]). unfold value_row. rewrite Hv. apply find_app_Some.
Qed.

Lemma resolved_in_extends codeSystem c r t t' :
  extends t t' → resolved_in codeSystem c r t → resolved_in codeSystem c r t'.
Proof.
  intros Hext (prop & Hd & Hr & Hl). exists prop. repeat split; try assumption.
  eapply property_lookup_extends; eassumption.
Qed.

Lemma stored_extends codeSystem imported t t' :
  extends t t' → stored codeSystem imported t → stored codeSystem imported t'.
Proof.
  intros Hext (codingId & r & Hc & Hr & [row Hrow]).
  exists codingId, r. repeat split.
  - rewrite (coding_lookup_extends _ _ _ _ Hext). exact Hc.
  - eapply resolved_in_extends; eassumption.
  - exists row. eapply value_row_extends; eassumption.
Qed.

Lemma row_for_extends codeSystem imported t t' row :
  extends t t' → row_for codeSystem imported t = Some row
  → row_for codeSystem imported t' = Some row.
Proof.
  intros Hext. unfold row_for.
  rewrite !(coding_lookup_extends _ _ _ _ Hext).
  destruct (coding_lookup _ (ip_code imported) t); [|discriminate].
  destruct (property_definition _ _); [|discriminate].
  destruct (property_lookup _ _ t) as [i|] eqn:E; [|discriminate].
  rewrite (property_lookup_extends _ _ _ _ _ Hext E). auto.
Qed.

Lemma extends_add_definition sys c ty uri descr t :
  extends t (add_CodeSystem_Property sys c ty uri descr t).
Proof.
  repeat split; simpl; [eauto|]. exists []. rewrite app_nil_r. reflexivity.
Qed.

Lemma extends_ignore row t : extends t (ignore_Coding_Property row t).
Proof.
  unfold ignore_Coding_Property. destruct (existsb _ _); [apply extends_refl|].
  repeat split; simpl; [|eauto]. exists []. rewrite app_nil_r. reflexivity.
Qed.

(** ** The resolver *)

Lemma resolveProperty_Throw codeSystem c d e d' :
  resolveProperty codeSystem c d = (Throw e, d')
  → d' = d ∧ property_definition codeSystem c = Throw e.
Proof.
  rewrite resolveProperty_eq.
  destruct (property_definition codeSystem c) as [prop|e0].
  - destruct (property_lookup _ _ _); discriminate.
  - intros [= -> ->]. auto.
Qed.

Lemma resolveProperty_Ok codeSystem c d r d' :
  resolveProperty codeSystem c d = (Ok r, d')
  → extends (visible d) (visible d')
    ∧ resolved_in codeSystem c r (visible d')
    ∧ d' = db_put (visible d') d.
Proof.
  rewrite resolveProperty_eq.
  destruct (property_definition codeSystem c) as [prop|e0] eqn:Hdef; [|discriminate].
  destruct (property_lookup _ _ _) as [known|] eqn:Hl.
  - intros [= <- <-]. split; [apply extends_refl|]. split.
    + exists prop. auto.
    + symmetry. apply db_put_visible.
  - intros [= <- <-]. rewrite visible_db_write. split; [apply extends_add_definition|].
    split.
    + exists prop. repeat split; [assumption|]. simpl.
      unfold property_lookup in *. simpl.
      destruct (find _ (CodeSystem_Property_rows (visible d))) eqn:E; [discriminate|].
      rewrite (find_app_None _ _ _ E). simpl.
      unfold property_matches. simpl. rewrite !String.eqb_refl. reflexivity.
    + apply db_write_put.
Qed.

Lemma resolved_in_resolveProperty codeSystem c r d :
  resolved_in codeSystem c r (visible d) → resolveProperty codeSystem c d = (Ok r, d).
Proof.
  intros (prop & Hd & Hr & Hl). rewrite resolveProperty_eq, Hd, Hl, <- Hr.
  destruct r; reflexivity.
Qed.

(** ** One entry of the property pass *)

Lemma processProperty_nocache_Throw codeSystem imported d e d' :
  processProperty_nocache codeSystem imported d = (Throw e, d') → d' = d.
Proof.
  rewrite processProperty_nocache_eq.
  destruct (coding_lookup _ _ _); [|intros [= _ ->]; reflexivity].
  destruct (resolveProperty _ _ d) as [[[propId isRel]|e0] d0] eqn:E; [discriminate|].
  intros [= _ <-]. apply resolveProperty_Throw in E. tauto.
Qed.

Lemma processProperty_nocache_Ok codeSystem imported d d' :
  processProperty_nocache codeSystem imported d = (Ok tt, d')
  → extends (visible d) (visible d')
    ∧ stored codeSystem imported (visible d')
    ∧ d' = db_put (visible d') d.
Proof.
  rewrite processProperty_nocache_eq.
  destruct (coding_lookup _ _ _) as [codingId|] eqn:Hc; [|discriminate].
  destruct (resolveProperty _ _ d) as [[[propId isRel]|e0] d0] eqn:E; [|discriminate].
  apply resolveProperty_Ok in E as (Hext & Hres & Hd0).
  intros [= <-]. rewrite visible_db_write.
  set (row := mkCodingPropertyRow _ _ _ _).
  assert (Hext' : extends (visible d0) (ignore_Coding_Property row (visible d0)))
    by apply extends_ignore.
  split; [eapply extends_trans; eassumption|]. split.
  - exists codingId, (propId, isRel). repeat split.
    + rewrite (coding_lookup_extends _ _ _ _ Hext'),
        (coding_lookup_extends _ _ _ _ Hext). exact Hc.
    + eapply resolved_in_extends; eassumption.
    + apply find_existsb. unfold ignore_Coding_Property.
      destruct (existsb (cp_conflicts row) _) eqn:Hex; [exact Hex|].
      simpl. rewrite existsb_app. simpl.
      unfold cp_conflicts at 2. simpl.
      rewrite !Z.eqb_refl, String.eqb_refl. simpl. apply orb_true_r.
  - rewrite db_write_put, Hd0, db_put_put. reflexivity.
Qed.

Lemma stored_processProperty_nocache codeSystem imported d :
  stored codeSystem imported (visible d)
  → processProperty_nocache codeSystem imported d = (Ok tt, d).
Proof.
  intros (codingId & [propId isRel] & Hc & Hres & Hrow).
  rewrite processProperty_nocache_eq, Hc,
    (resolved_in_resolveProperty _ _ _ _ Hres).
  f_equal. apply db_write_id. unfold ignore_Coding_Property.
  apply find_existsb in Hrow.
  match goal with
  | |- (if ?b then _ else _) = _ => assert (Hb : b = true) by exact Hrow
  end.
  rewrite Hb. reflexivity.
Qed.

(** ** The property pass without the cache *)

Lemma processProperties_nocache_cons imported rest codeSystem d :
  processProperties_nocache (imported :: rest) codeSystem d =
  match processProperty_nocache codeSystem imported d with
  | (Ok _, d') => processProperties_nocache rest codeSystem d'
  | (Throw e, d') => (Throw e, d')
  end.
Proof. reflexivity. Qed.

Lemma processProperties_nocache_frame ps codeSystem d r d' :
  processProperties_nocache ps codeSystem d = (r, d')
  → extends (visible d) (visible d') ∧ d' = db_put (visible d') d.
Proof.
  revert d. induction ps as [|imported rest IH]; intros d.
  - intros [= <- <-]. split; [apply extends_refl|symmetry; apply db_put_visible].
  - rewrite processProperties_nocache_cons.
    destruct (processProperty_nocache codeSystem imported d) as [[[]|e] d0] eqn:E.
    + apply processProperty_nocache_Ok in E as (Hext & _ & Hd0).
      intros H. apply IH in H as (Hext' & Hd'). split.
      * eapply extends_trans; eassumption.
      * transitivity (db_put (visible d') d0); [exact Hd'|].
        rewrite Hd0. apply db_put_put.
    + apply processProperty_nocache_Throw in E. subst d0.
      intros [= <- <-]. split; [apply extends_refl|symmetry; apply db_put_visible].
Qed.

Lemma processProperties_nocache_stored ps codeSystem d d' :
  processProperties_nocache ps codeSystem d = (Ok tt, d')
  → Forall (fun imported => stored codeSystem imported (visible d')) ps.
Proof.
  revert d. induction ps as [|imported rest IH]; intros d; [constructor|].
  rewrite processProperties_nocache_cons.
  destruct (processProperty_nocache codeSystem imported d) as [[[]|e] d0] eqn:E;
    [|discriminate].
  apply processProperty_nocache_Ok in E as (_ & Hst & _).
  intros H. constructor; [|eapply IH; eassumption].
  apply processProperties_nocache_frame in H as (Hext & _).
  eapply stored_extends; eassumption.
Qed.

Lemma stored_processProperties_nocache ps codeSystem d :
  Forall (fun imported => stored codeSystem imported (visible d)) ps
  → processProperties_nocache ps codeSystem d = (Ok tt, d).
Proof.
  induction 1 as [|imported rest Hst _ IH]; [reflexivity|].
  rewrite processProperties_nocache_cons,
    (stored_processProperty_nocache _ _ _ Hst). exact IH.
Qed.

(** Running the pass again on its own result changes nothing and gives the
    same outcome, also when it fails. *)
Lemma processProperties_nocache_again ps codeSystem d r d' :
  processProperties_nocache ps codeSystem d = (r, d')
  → processProperties_nocache ps codeSystem d' = (r, d').
Proof.
  revert d. induction ps as [|imported rest IH]; intros d.
  - intros [= <- <-]. reflexivity.
  - rewrite !processProperties_nocache_cons.
    destruct (processProperty_nocache codeSystem imported d) as [[[]|e] d0] eqn:E.
    + intros H. pose proof (IH _ H) as Hagain.
      apply processProperty_nocache_Ok in E as (_ & Hst & _).
      apply processProperties_nocache_frame in H as (Hext & _).
      rewrite (stored_processProperty_nocache codeSystem imported d');
        [exact Hagain|].
      eapply stored_extends; eassumption.
    + pose proof (processProperty_nocache_Throw _ _ _ _ _ E). subst d0.
      intros [= <- <-]. rewrite E. reflexivity.
Qed.

(** ** The resolution cache *)

Lemma append_inj_l (p a b : string) : p +:+ a = p +:+ b → a = b.
Proof. induction p as [|x p IH]; simpl; [auto|]. intros [= H]. auto. Qed.

Lemma cacheKey_inj codeSystem c1 c2 :
  cacheKey codeSystem c1 = cacheKey codeSystem c2 → c1 = c2.
Proof.
  unfold cacheKey. intros H. apply append_inj_l in H. apply append_inj_l in H.
  exact H.
Qed.

Lemma cache_ok_empty codeSystem t : cache_ok codeSystem ∅ t.
Proof. intros c r H. rewrite lookup_empty in H. discriminate. Qed.

Lemma cache_ok_extends codeSystem cache t t' :
  extends t t' → cache_ok codeSystem cache t → cache_ok codeSystem cache t'.
Proof. intros Hext H c r Hc. eapply resolved_in_extends; eauto. Qed.

Lemma cached_property_spec codeSystem c cache d :
  cache_ok codeSystem cache (visible d) →
  match cached_property codeSystem c cache d with
  | (Ok (propId, isRelationship, cache'), d') =>
      resolveProperty codeSystem c d = (Ok (propId, isRelationship), d')
      ∧ cache_ok codeSystem cache' (visible d')
  | (Throw e, d') => resolveProperty codeSystem c d = (Throw e, d')
  end.
Proof.
  intros Hok. unfold cached_property.
  assert (Hres :
    match bind (resolveProperty codeSystem c)
            (fun r => ret (r, <[cacheKey codeSystem c := r]> cache)) d with
    | (Ok (propId, isRelationship, cache'), d') =>
        resolveProperty codeSystem c d = (Ok (propId, isRelationship), d')
        ∧ cache_ok codeSystem cache' (visible d')
    | (Throw e, d') => resolveProperty codeSystem c d = (Throw e, d')
    end).
  { unfold bind, ret.
    destruct (resolveProperty codeSystem c d) as [[[propId isRel]|e] d'] eqn:E;
      [|reflexivity].
    split; [reflexivity|].
    apply resolveProperty_Ok in E as (Hext & Hr & _).
    intros c' r' Hc'.
    destruct (decide (c' = c)) as [->|Hne].
    - rewrite lookup_insert_eq in Hc'. injection Hc' as <-. exact Hr.
    - rewrite lookup_insert_ne in Hc'.
      + eapply resolved_in_extends; eauto.
      + intros Hk. apply cacheKey_inj in Hk. congruence. }
  destruct (cache !! cacheKey codeSystem c) as [[propId isRel]|] eqn:Hc; [|exact Hres].
  destruct (Z.eqb propId 0); [exact Hres|].
  unfold ret. split; [|exact Hok].
  apply resolved_in_resolveProperty. apply Hok. exact Hc.
Qed.

Lemma processProperty_spec codeSystem imported cache d :
  cache_ok codeSystem cache (visible d) →
  match processProperty codeSystem imported cache d with
  | (Ok cache', d') =>
      processProperty_nocache codeSystem imported d = (Ok tt, d')
      ∧ cache_ok codeSystem cache' (visible d')
  | (Throw e, d') => processProperty_nocache codeSystem imported d = (Throw e, d')
  end.
Proof.
  intros Hok. rewrite processProperty_nocache_eq.
  unfold processProperty, bind at 1, select_Coding_id.
  fold (coding_lookup (cs_id codeSystem) (ip_code imported) (visible d)).
  destruct (coding_lookup _ _ _) as [codingId|]; [|reflexivity].
  unfold bind at 1.
  pose proof (cached_property_spec codeSystem (ip_property imported) cache d Hok) as H.
  destruct (cached_property _ _ _ d) as [[[[propId isRel] cache']|e] d0].
  - destruct H as [-> Hok']. unfold bind, ret, select_Coding_id,
      insert_Coding_Property_ignore.
    fold (coding_lookup (cs_id codeSystem) (ip_value imported) (visible d0)).
    destruct isRel; (split; [reflexivity|]);
      rewrite visible_db_write;
      (eapply cache_ok_extends; [apply extends_ignore|exact Hok']).
  - rewrite H. reflexivity.
Qed.

Lemma processProperties_from_nocache cache codeSystem ps d :
  cache_ok codeSystem cache (visible d) →
  processProperties_from cache codeSystem ps d
  = processProperties_nocache ps codeSystem d.
Proof.
  revert cache d. induction ps as [|imported rest IH]; intros cache d Hok;
    [reflexivity|].
  rewrite processProperties_nocache_cons. simpl. unfold bind at 1.
  pose proof (processProperty_spec codeSystem imported cache d Hok) as H.
  destruct (processProperty _ _ _ d) as [[cache'|e] d0].
  - destruct H as [-> Hok']. apply IH. exact Hok'.
  - rewrite H. reflexivity.
Qed.

Lemma processProperties_eq_nocache ps codeSystem d :
  processProperties ps codeSystem d = processProperties_nocache ps codeSystem d.
Proof. apply processProperties_from_nocache, cache_ok_empty. Qed.

(** ** The concept pass *)

Lemma for_of_merge sys concepts d :
  for_of concepts
    (fun concept =>
       insert_Coding_merge sys (concept_code concept) (concept_display concept)) d
  = (Ok tt, db_put (merge_all sys concepts (visible d)) d).
Proof.
  revert d. induction concepts as [|x rest IH]; intros d; simpl.
  - unfold ret. rewrite db_put_visible. reflexivity.
  - unfold bind, insert_Coding_merge. rewrite IH, visible_db_write, db_write_put,
      db_put_put. reflexivity.
Qed.

Lemma merge_Coding_other sys c disp t :
  CodeSystem_Property_rows (merge_Coding sys c disp t) = CodeSystem_Property_rows t
  ∧ Coding_Property_rows (merge_Coding sys c disp t) = Coding_Property_rows t
  ∧ CodeSystem_Property_seq (merge_Coding sys c disp t) = CodeSystem_Property_seq t.
Proof. unfold merge_Coding. destruct (existsb _ _); auto. Qed.

Lemma merge_all_other sys concepts t :
  CodeSystem_Property_rows (merge_all sys concepts t) = CodeSystem_Property_rows t
  ∧ Coding_Property_rows (merge_all sys concepts t) = Coding_Property_rows t
  ∧ CodeSystem_Property_seq (merge_all sys concepts t) = CodeSystem_Property_seq t.
Proof.
  revert t. induction concepts as [|x rest IH]; intros t; simpl; [auto|].
  destruct (IH (merge_Coding sys (concept_code x) (concept_display x) t))
    as (-> & -> & ->).
  apply merge_Coding_other.
Qed.

Lemma merge_all_snoc sys concepts x t :
  merge_all sys (concepts ++ [x]) t
  = merge_Coding sys (concept_code x) (concept_display x) (merge_all sys concepts t).
Proof. unfold merge_all. rewrite fold_left_app. reflexivity. Qed.

Lemma set_all_snoc sys concepts x r :
  set_all sys (concepts ++ [x]) r
  = set_display sys (concept_code x) (concept_display x) (set_all sys concepts r).
Proof. unfold set_all. rewrite fold_left_app. reflexivity. Qed.

Lemma set_display_matches sys c disp k r :
  coding_matches sys k (set_display sys c disp r) = coding_matches sys k r.
Proof. unfold set_display. destruct (coding_matches sys c r); reflexivity. Qed.

Lemma set_all_matches sys concepts k r :
  coding_matches sys k (set_all sys concepts r) = coding_matches sys k r.
Proof.
  revert r. induction concepts as [|x rest IH]; intros r; simpl; [reflexivity|].
  rewrite IH. apply set_display_matches.
Qed.

Lemma set_display_id sys c disp r :
  coding_id (set_display sys c disp r) = coding_id r.
Proof. unfold set_display. destruct (coding_matches sys c r); reflexivity. Qed.

Lemma set_all_id sys concepts r : coding_id (set_all sys concepts r) = coding_id r.
Proof.
  revert r. induction concepts as [|x rest IH]; intros r; simpl; [reflexivity|].
  rewrite IH. apply set_display_id.
Qed.

Lemma coding_matches_eq sys c r :
  coding_matches sys c r = true → coding_system r = sys ∧ coding_code r = c.
Proof.
  unfold coding_matches. intros H. apply andb_true_iff in H as [H1 H2].
  apply String.eqb_eq in H1, H2. auto.
Qed.

(** On a matching row the update only keeps the id. *)
Lemma set_display_hit sys c disp r :
  coding_matches sys c r = true
  → set_display sys c disp r = mkCodingRow (coding_id r) sys c disp.
Proof.
  intros H. unfold set_display. rewrite H.
  apply coding_matches_eq in H as [-> ->]. reflexivity.
Qed.

Lemma set_display_miss sys c disp r :
  coding_matches sys c r = false → set_display sys c disp r = r.
Proof. intros H. unfold set_display. rewrite H. reflexivity. Qed.

Lemma existsb_map_set_display sys c disp k rows :
  existsb (coding_matches sys k) (map (set_display sys c disp) rows)
  = existsb (coding_matches sys k) rows.
Proof.
  induction rows as [|r rows IH]; simpl; [reflexivity|].
  rewrite set_display_matches, IH. reflexivity.
Qed.

(** Every row left by the concept pass is a fixed point of the pass. *)
Lemma merge_all_fixed sys concepts t :
  Forall (fun r => set_all sys concepts r = r)
    (Coding_rows (merge_all sys concepts t)).
Proof.
  induction concepts as [|x rest IH] using rev_ind.
  - simpl. apply Forall_forall. reflexivity.
  - rewrite merge_all_snoc. set (t1 := merge_all sys rest t) in *.
    unfold merge_Coding.
    destruct (existsb _ (Coding_rows t1)) eqn:Hex; simpl.
    + apply Forall_map. eapply Forall_impl; [exact IH|]. simpl.
      intros r Hr. rewrite set_all_snoc.
      destruct (coding_matches sys (concept_code x) r) eqn:Hm.
      * rewrite (set_display_hit _ _ _ _ Hm) at 2.
        rewrite set_display_hit.
        -- rewrite set_all_id, set_display_id. reflexivity.
        -- rewrite set_all_matches, set_display_matches. exact Hm.
      * rewrite (set_display_miss _ _ _ _ Hm), Hr. apply set_display_miss, Hm.
    + apply Forall_app. split.
      * rewrite Forall_forall in IH. apply Forall_forall. intros r Hr.
        rewrite set_all_snoc, (IH r Hr). apply set_display_miss.
        destruct (coding_matches sys (concept_code x) r) eqn:Hm; [|reflexivity].
        exfalso. apply list_elem_of_In in Hr.
        assert (existsb (coding_matches sys (concept_code x)) (Coding_rows t1) = true)
          by (apply existsb_exists; eauto).
        congruence.
      * constructor; [|constructor]. rewrite set_all_snoc.
        rewrite set_display_hit.
        -- rewrite set_all_id. reflexivity.
        -- rewrite set_all_matches. unfold coding_matches. simpl.
           rewrite !String.eqb_refl. reflexivity.
Qed.

Lemma merge_all_present sys concepts t x :
  x ∈ concepts
  → existsb (coding_matches sys (concept_code x)) (Coding_rows (merge_all sys concepts t))
    = true.
Proof.
  induction concepts as [|y rest IH] using rev_ind; [intros H; inversion H|].
  rewrite merge_all_snoc. set (t1 := merge_all sys rest t) in *.
  intros Hin. apply elem_of_app in Hin as [Hin|Hin].
  - specialize (IH Hin). unfold merge_Coding.
    destruct (existsb (coding_matches sys (concept_code y)) _); simpl.
    + rewrite existsb_map_set_display. exact IH.
    + rewrite existsb_app, IH. reflexivity.
  - apply list_elem_of_singleton in Hin as ->. unfold merge_Coding.
    destruct (existsb (coding_matches sys (concept_code y)) _) eqn:Hex; simpl.
    + rewrite existsb_map_set_display. exact Hex.
    + rewrite existsb_app. simpl. unfold coding_matches at 2. simpl.
      rewrite !String.eqb_refl. simpl. apply orb_true_r.
Qed.

(** When all concepts are stored the pass only rewrites displays. *)
Lemma merge_all_stored sys concepts t :
  (∀ x, x ∈ concepts →
        existsb (coding_matches sys (concept_code x)) (Coding_rows t) = true)
  → merge_all sys concepts t
    = mkTables (map (set_all sys concepts) (Coding_rows t))
        (CodeSystem_Property_rows t) (Coding_Property_rows t)
        (Coding_seq t) (CodeSystem_Property_seq t).
Proof.
  revert t. induction concepts as [|x rest IH]; intros t Hall; simpl.
  - rewrite map_id. destruct t; reflexivity.
  - rewrite IH.
    + unfold merge_Coding. rewrite (Hall x) by left. simpl.
      rewrite map_map. reflexivity.
    + intros y Hy. unfold merge_Coding. rewrite (Hall x) by left. simpl.
      rewrite existsb_map_set_display. apply Hall. right. exact Hy.
Qed.

(** The concept pass changes nothing on tables whose concepts it has written. *)
Lemma merge_all_again sys concepts t t' :
  Coding_rows t' = Coding_rows (merge_all sys concepts t)
  → merge_all sys concepts t' = t'.
Proof.
  intros Hrows. rewrite merge_all_stored.
  - rewrite Hrows.
    replace (map (set_all sys concepts) (Coding_rows (merge_all sys concepts t)))
      with (Coding_rows (merge_all sys concepts t)).
    + rewrite <- Hrows. destruct t'; reflexivity.
    + pose proof (merge_all_fixed sys concepts t) as Hfix. clear Hrows.
      induction Hfix as [|r rows Hr _ IH]; simpl; [reflexivity|].
      rewrite Hr. f_equal. exact IH.
  - intros x Hx. rewrite Hrows. apply merge_all_present, Hx.
Qed.

(** ** The import as a whole *)

Lemma importCodeSystem_eq codeSystem concepts properties d :
  importCodeSystem codeSystem concepts properties d =
  match processProperties_nocache (default [] properties) codeSystem
          (mkDb (committed d)
             (Some (merge_all (cs_id codeSystem) (default [] concepts) (visible d))))
  with
  | (Ok _, d1) => (Ok tt, mkDb (visible d1) None)
  | (Throw e, d1) => (Throw e, d1)
  end.
Proof.
  unfold importCodeSystem, bind at 1, query_BEGIN.
  set (d0 := mkDb (committed d) (Some (visible d))).
  assert (Hbegin : (match pending d with
                    | Some _ => (Ok tt, d)
                    | None => (Ok tt, mkDb (committed d) (Some (committed d)))
                    end) = (Ok tt, d0)).
  { subst d0. unfold visible. destruct d as [c [p|]]; reflexivity. }
  rewrite Hbegin. unfold bind at 1.
  assert (Hconcepts :
    (if has_length concepts
     then for_of (default [] concepts)
            (fun concept =>
               insert_Coding_merge (cs_id codeSystem)
                 (concept_code concept) (concept_display concept))
     else ret tt) d0
    = (Ok tt, mkDb (committed d)
                (Some (merge_all (cs_id codeSystem) (default [] concepts) (visible d))))).
  { destruct concepts as [[|x rest]|]; try reflexivity.
    unfold has_length. rewrite for_of_merge. reflexivity. }
  rewrite Hconcepts. unfold bind at 1.
  assert (Hprops :
    ∀ d', (if has_length properties
           then processProperties (default [] properties) codeSystem
           else ret tt) d'
          = processProperties_nocache (default [] properties) codeSystem d').
  { intros d'. destruct properties as [[|x rest]|]; try reflexivity.
    unfold has_length. apply processProperties_eq_nocache. }
  rewrite Hprops.
  destruct (processProperties_nocache _ _ _) as [[[]|e] d1]; reflexivity.
Qed.

(** The concepts seen through the handle after the import are those the
    concept pass wrote, whether the import succeeds or fails. *)
Lemma importCodeSystem_Coding_rows codeSystem concepts properties d :
  Coding_rows (visible (importCodeSystem codeSystem concepts properties d).2)
  = Coding_rows (merge_all (cs_id codeSystem) (default [] concepts) (visible d)).
Proof.
  rewrite importCodeSystem_eq.
  destruct (processProperties_nocache _ _ _) as [r d1] eqn:E.
  apply processProperties_nocache_frame in E as ((Hrows & _) & _).
  destruct r as [[]|e]; exact Hrows.
Qed.

(** C2: idempotence.  For every CodeSystem, every batch of concepts and
    properties and every state of the database, importing the batch a second
    time returns the outcome of the first import and leaves the handle, hence
    the Coding, CodeSystem_Property and Coding_Property tables, exactly as the
    first import left them. *)
Theorem importCodeSystem_idempotent codeSystem concepts properties d :
  importCodeSystem codeSystem concepts properties
    (importCodeSystem codeSystem concepts properties d).2
  = importCodeSystem codeSystem concepts properties d.
Proof.
  rewrite (importCodeSystem_eq _ _ _ d).
  set (sys := cs_id codeSystem). set (cl := default [] concepts).
  set (ps := default [] properties).
  set (d0 := mkDb (committed d) (Some (merge_all sys cl (visible d)))).
  destruct (processProperties_nocache ps codeSystem d0) as [r d1] eqn:E.
  pose proof (processProperties_nocache_frame _ _ _ _ _ E) as ((Hrows & _) & Hd1).
  assert (Hfix : ∀ t', Coding_rows t' = Coding_rows (visible d1)
                       → merge_all sys cl t' = t').
  { intros t' Ht'. apply (merge_all_again sys cl (visible d)). rewrite Ht'.
    exact Hrows. }
  destruct r as [[]|e]; simpl snd; rewrite importCodeSystem_eq;
    fold sys; fold cl; fold ps.
  - change (visible (mkDb (visible d1) None)) with (visible d1).
    change (committed (mkDb (visible d1) None)) with (visible d1).
    rewrite Hfix by reflexivity.
    rewrite stored_processProperties_nocache; [reflexivity|].
    exact (processProperties_nocache_stored _ _ _ _ E).
  - rewrite Hfix by reflexivity.
    assert (Hsame : mkDb (committed d1) (Some (visible d1)) = d1).
    { rewrite Hd1 at 3. rewrite Hd1 at 1. reflexivity. }
    rewrite Hsame, (processProperties_nocache_again _ _ _ _ _ E). reflexivity.
Qed.

(** C10: an import without concepts and without properties (absent or empty
    lists) succeeds and commits: the transaction is closed, the tables seen
    through the handle, rows and sequences alike, are the ones seen before the
    call and they are the committed ones; on a handle with no transaction left
    open the whole state is as before. *)
Theorem importCodeSystem_empty_batch codeSystem d :
  let done := (Ok tt, mkDb (visible d) None) in
  importCodeSystem codeSystem None None d = done
  ∧ importCodeSystem codeSystem (Some []) None d = done
  ∧ importCodeSystem codeSystem None (Some []) d = done
  ∧ importCodeSystem codeSystem (Some []) (Some []) d = done
  ∧ visible done.2 = visible d
  ∧ committed done.2 = visible d
  ∧ pending done.2 = None
  ∧ (pending d = None → done.2 = d).
Proof.
  simpl. rewrite !importCodeSystem_eq. simpl. repeat split.
  intros Hnone. unfold visible. destruct d as [c p]. simpl in *. subst p.
  reflexivity.
Qed.

Lemma importCodeSystem_empty_batch_witness :
  importCodeSystem ex_cs (Some []) (Some []) empty_db = (Ok tt, empty_db).
Proof.
  pose proof (importCodeSystem_empty_batch ex_cs empty_db)
    as (_ & _ & _ & Hrun & _ & _ & _ & Hsame).
  exact (eq_trans Hrun (f_equal (pair (Ok tt)) (Hsame eq_refl))).
Defined.

(** A failed import never rolls back: the transaction it began is still open
    on the handle and holds whatever the call wrote before the error. *)
Lemma importCodeSystem_Throw_open codeSystem concepts properties d e d' :
  importCodeSystem codeSystem concepts properties d = (Throw e, d')
  → pending d' = Some (visible d') ∧ committed d' = committed d.
Proof.
  rewrite importCodeSystem_eq.
  destruct (processProperties_nocache _ _ _) as [[[]|e0] d1] eqn:E; [discriminate|].
  intros [= _ <-].
  apply processProperties_nocache_frame in E as [_ Hd1].
  rewrite Hd1. unfold db_put, db_write, visible. simpl. split; reflexivity.
Qed.

(** C1: the import at a batch whose property names an unknown code.  The
    call fails with the diagnostic of the specification, but no ROLLBACK is
    issued: the transaction stays open on the handle with the concept row of
    the failed call in it, a reader of the handle sees the row, and the COMMIT
    of the next import, here an empty one, makes it durable. *)
Theorem importCodeSystem_failure_keeps_rows :
  let failed :=
    importCodeSystem ex_cs (Some [mkCoding "A" None])
      (Some [mkImportedProperty "X" "parent" "A"]) empty_db in
  failed.1 = Throw (badRequest "Unknown code: http://ex/cs|X")
  ∧ Coding_rows (visible empty_db) = []
  ∧ Coding_rows (visible failed.2) = [mkCodingRow 1 "cs-1" "A" None]
  ∧ pending failed.2 ≠ None
  ∧ importCodeSystem ex_cs None None failed.2
    = (Ok tt, mkDb (mkTables [mkCodingRow 1 "cs-1" "A" None] [] [] 2 1) None).
Proof.
  vm_compute. repeat split; discriminate.
Qed.

(** ** Implicit parent semantics *)

Lemma property_definition_Throw codeSystem c e :
  property_definition codeSystem c = Throw e
  → e = badRequest ("Unknown property: " +:+ c).
Proof.
  unfold property_definition. destruct (find_declared codeSystem c); [discriminate|].
  destruct (implicit_parent codeSystem c); [discriminate|]. congruence.
Qed.

Lemma resolveProperty_synthesized codeSystem c d :
  find_declared codeSystem c = None → implicit_parent codeSystem c = true →
  ∃ propId d',
    resolveProperty codeSystem c d = (Ok (propId, true), d')
    ∧ property_lookup (cs_id codeSystem) c (visible d') = Some propId
    ∧ (property_lookup (cs_id codeSystem) c (visible d) = None →
       CodeSystem_Property_rows (visible d')
       = CodeSystem_Property_rows (visible d)
           ++ [mkPropertyRow propId (cs_id codeSystem) c "code"
                 (Some parentProperty) None]).
Proof.
  intros Hdecl Himpl.
  assert (Hdef : property_definition codeSystem c
                 = Ok (mkCodeSystemProperty c (Some parentProperty) "code" None)).
  { unfold property_definition. rewrite Hdecl, Himpl. reflexivity. }
  destruct (resolveProperty codeSystem c d) as [[[propId isRel]|e] d'] eqn:E.
  - pose proof E as E'. apply resolveProperty_Ok in E' as (_ & (prop & Hp & Hrel & Hl) & _).
    rewrite Hdef in Hp. injection Hp as <-. simpl in Hrel, Hl. subst isRel.
    exists propId, d'. split; [reflexivity|]. split; [exact Hl|].
    intros Hnone. rewrite resolveProperty_eq, Hdef, Hnone in E.
    injection E as <- <-. rewrite visible_db_write. reflexivity.
  - apply resolveProperty_Throw in E as [_ E]. congruence.
Qed.

(** C5: implicit parent semantics of [resolveProperty], for a code that the
    CodeSystem does not declare.  Without [hierarchyMeaning] the code
    ["parent"], and with [hierarchyMeaning = "isa"] the code ["isa"], resolves
    to a relationship; the id returned is the one stored for the code, and when
    no definition was stored yet exactly one row is created, with the parent
    uri and type ["code"].  With [hierarchyMeaning = "isa"] the code ["parent"]
    fails with "Unknown property: parent" and nothing is written. *)
Theorem resolveProperty_implicit_parent codeSystem c d
  (Hundeclared : find_declared codeSystem c = None) :
  let synthesized :=
    ∃ propId d',
      resolveProperty codeSystem c d = (Ok (propId, true), d')
      ∧ property_lookup (cs_id codeSystem) c (visible d') = Some propId
      ∧ (property_lookup (cs_id codeSystem) c (visible d) = None →
         CodeSystem_Property_rows (visible d')
         = CodeSystem_Property_rows (visible d)
             ++ [mkPropertyRow propId (cs_id codeSystem) c "code"
                   (Some "http://hl7.org/fhir/concept-properties#parent") None]) in
  (hierarchyMeaning codeSystem = None → c = "parent" → synthesized)
  ∧ (hierarchyMeaning codeSystem = Some "isa" → c = "isa" → synthesized)
  ∧ (hierarchyMeaning codeSystem = Some "isa" → c = "parent" →
     resolveProperty codeSystem c d
     = (Throw (badRequest "Unknown property: parent"), d)).
Proof.
  simpl. repeat split.
  - intros Hh ->. apply resolveProperty_synthesized; [exact Hundeclared|].
    unfold implicit_parent. rewrite Hh. reflexivity.
  - intros Hh ->. apply resolveProperty_synthesized; [exact Hundeclared|].
    unfold implicit_parent. rewrite Hh. reflexivity.
  - intros Hh ->. rewrite resolveProperty_eq. unfold property_definition.
    rewrite Hundeclared. unfold implicit_parent. rewrite Hh. reflexivity.
Qed.

Lemma resolveProperty_implicit_parent_witness :
  (∃ propId d',
     resolveProperty ex_cs "parent" empty_db = (Ok (propId, true), d')
     ∧ property_lookup "cs-1" "parent" (visible d') = Some propId
     ∧ (property_lookup "cs-1" "parent" (visible empty_db) = None →
        CodeSystem_Property_rows (visible d')
        = [mkPropertyRow propId "cs-1" "parent" "code"
             (Some "http://hl7.org/fhir/concept-properties#parent") None]))
  ∧ resolveProperty (mkCodeSystem "cs-1" "http://ex/cs" (Some "isa") None)
      "parent" empty_db
    = (Throw (badRequest "Unknown property: parent"), empty_db).
Proof.
  split.
  - exact (proj1 (resolveProperty_implicit_parent ex_cs "parent" empty_db eq_refl)
             eq_refl eq_refl).
  - exact (proj2 (proj2 (resolveProperty_implicit_parent
                           (mkCodeSystem "cs-1" "http://ex/cs" (Some "isa") None)
                           "parent" empty_db eq_refl))
             eq_refl eq_refl).
Defined.

(** ** Unknown codes *)

Lemma processProperties_nocache_app l1 l2 codeSystem d :
  processProperties_nocache (l1 ++ l2) codeSystem d =
  match processProperties_nocache l1 codeSystem d with
  | (Ok _, d') => processProperties_nocache l2 codeSystem d'
  | (Throw e, d') => (Throw e, d')
  end.
Proof.
  revert d. induction l1 as [|x l1 IH]; intros d; [reflexivity|].
  simpl app. rewrite !processProperties_nocache_cons.
  destruct (processProperty_nocache codeSystem x d) as [[[]|e] d0]; [apply IH|reflexivity].
Qed.

Lemma value_row_fields codingId propId v t row :
  value_row codingId propId v t = Some row
  → row ∈ Coding_Property_rows t
    ∧ cp_coding row = codingId ∧ cp_property row = propId ∧ cp_value row = v.
Proof.
  intros H. apply find_true in H as [H Hin]. split; [exact Hin|].
  unfold cp_conflicts in H. simpl in H.
  apply andb_true_iff in H as [H H3]. apply andb_true_iff in H as [H1 H2].
  apply Z.eqb_eq in H1, H2. apply String.eqb_eq in H3. auto.
Qed.

(** C7: the owning concept of an imported property.  When the entries before
    it went through and no Coding row has the CodeSystem's id and the entry's
    code, the property pass fails there with "Unknown code: <url>|<code>" and
    the entry writes nothing.  When such a row exists, with a server-assigned
    (non-zero) id, no unknown-code error is raised for the entry and the id of
    the row is used as the owning coding: if the property of the entry does not
    resolve, the pass fails there with "Unknown property: <property>"; if it
    resolves, the entry goes through, the value row stored for the entry's
    property and value has that id as its coding, and when no such row was
    stored before, this row is the one row the entry adds. *)
Theorem processProperties_owning_concept codeSystem done imported rest d d1
  (Hdone : processProperties done codeSystem d = (Ok tt, d1)) :
  (find (coding_matches (cs_id codeSystem) (ip_code imported)) (Coding_rows (visible d))
   = None →
   processProperties (done ++ imported :: rest) codeSystem d
   = (Throw (badRequest
               ("Unknown code: " +:+ cs_url codeSystem +:+ "|" +:+ ip_code imported)),
      d1))
  ∧ (∀ row,
       find (coding_matches (cs_id codeSystem) (ip_code imported))
         (Coding_rows (visible d)) = Some row →
       coding_id row ≠ 0 →
       (∀ e, property_definition codeSystem (ip_property imported) = Throw e →
             processProperties (done ++ [imported]) codeSystem d
             = (Throw (badRequest ("Unknown property: " +:+ ip_property imported)), d1))
       ∧ (∀ prop, property_definition codeSystem (ip_property imported) = Ok prop →
            ∃ d2 propId value,
              processProperties (done ++ [imported]) codeSystem d = (Ok tt, d2)
              ∧ property_lookup (cs_id codeSystem) (ip_property imported) (visible d2)
                = Some propId
              ∧ value_row (coding_id row) propId (ip_value imported) (visible d2)
                = Some value
              ∧ cp_coding value = coding_id row
              ∧ cp_property value = propId
              ∧ cp_value value = ip_value imported
              ∧ (value_row (coding_id row) propId (ip_value imported) (visible d1)
                 = None →
                 Coding_Property_rows (visible d2)
                 = Coding_Property_rows (visible d1) ++ [value]))).
Proof.
  rewrite processProperties_eq_nocache in Hdone.
  pose proof (processProperties_nocache_frame _ _ _ _ _ Hdone) as [Hext _].
  split.
  - intros Hnone.
    rewrite processProperties_eq_nocache, processProperties_nocache_app, Hdone,
      processProperties_nocache_cons, processProperty_nocache_eq,
      (coding_lookup_extends _ _ _ _ Hext).
    unfold coding_lookup. rewrite Hnone. reflexivity.
  - intros row Hrow Hid.
    assert (Hlook : coding_lookup (cs_id codeSystem) (ip_code imported) (visible d1)
                    = Some (coding_id row)).
    { rewrite (coding_lookup_extends _ _ _ _ Hext). unfold coding_lookup.
      rewrite Hrow. apply truthy_id_nonzero, Hid. }
    assert (Hstep : processProperties (done ++ [imported]) codeSystem d
                    = match processProperty_nocache codeSystem imported d1 with
                      | (Ok _, d2) => (Ok tt, d2)
                      | (Throw e, d2) => (Throw e, d2)
                      end).
    { rewrite processProperties_eq_nocache, processProperties_nocache_app, Hdone,
        processProperties_nocache_cons.
      destruct (processProperty_nocache codeSystem imported d1) as [[[]|e] d2];
        reflexivity. }
    rewrite Hstep, processProperty_nocache_eq, Hlook. split.
    + intros e Hdef. rewrite resolveProperty_eq, Hdef.
      apply property_definition_Throw in Hdef. subst e. reflexivity.
    + intros prop Hdef.
      destruct (resolveProperty codeSystem (ip_property imported) d1)
        as [[[propId isRel]|e] d0] eqn:E.
      * assert (Hvals : Coding_Property_rows (visible d0)
                        = Coding_Property_rows (visible d1)).
        { pose proof E as E'. rewrite resolveProperty_eq, Hdef in E'.
          destruct (property_lookup _ _ (visible d1)); injection E' as _ _ <-;
            [reflexivity|]. rewrite visible_db_write. reflexivity. }
        apply resolveProperty_Ok in E as (_ & (prop' & _ & _ & Hl) & _).
        simpl in Hl.
        set (new := mkCodingPropertyRow (coding_id row) propId (ip_value imported) _).
        pose proof (extends_ignore new (visible d0)) as Hext'.
        assert (Hstored : is_Some (value_row (coding_id row) propId (ip_value imported)
                                     (ignore_Coding_Property new (visible d0)))).
        { apply find_existsb. unfold ignore_Coding_Property.
          destruct (existsb (cp_conflicts new) _) eqn:Hex; [exact Hex|].
          simpl. rewrite existsb_app. simpl. unfold cp_conflicts at 2. simpl.
          rewrite !Z.eqb_refl, String.eqb_refl. simpl. apply orb_true_r. }
        destruct Hstored as [value Hvalue].
        exists (db_write (ignore_Coding_Property new) d0), propId, value.
        rewrite visible_db_write.
        pose proof (value_row_fields _ _ _ _ _ Hvalue) as (_ & F1 & F2 & F3).
        split; [reflexivity|].
        split; [eapply property_lookup_extends; eassumption|].
        split; [exact Hvalue|]. split; [exact F1|]. split; [exact F2|].
        split; [exact F3|].
        intros Hnone. unfold value_row in Hnone, Hvalue. rewrite <- Hvals in Hnone.
        unfold ignore_Coding_Property in Hvalue |- *.
        assert (Hex : existsb (cp_conflicts new) (Coding_Property_rows (visible d0))
                      = false).
        { destruct (existsb _ _) eqn:Hex; [|reflexivity].
          apply find_existsb in Hex as [x Hx].
          change (cp_conflicts new)
            with (cp_conflicts (mkCodingPropertyRow (coding_id row) propId
                                  (ip_value imported) None)) in Hx.
          congruence. }
        rewrite Hex in Hvalue |- *. simpl in Hvalue |- *.
        rewrite (find_app_None _ _ _ Hnone) in Hvalue. simpl in Hvalue.
        destruct (cp_conflicts _ new); [|discriminate].
        injection Hvalue as <-. rewrite Hvals. reflexivity.
      * apply resolveProperty_Throw in E as [_ E]. congruence.
Qed.

Lemma processProperties_owning_concept_witness :
  processProperties [mkImportedProperty "X" "parent" "A"] ex_cs
    (mkDb (mkTables [mkCodingRow 7 "cs-1" "A" None] [] [] 8 1) None)
  = (Throw (badRequest "Unknown code: http://ex/cs|X"),
     mkDb (mkTables [mkCodingRow 7 "cs-1" "A" None] [] [] 8 1) None)
  ∧ processProperties [mkImportedProperty "A" "severity" "high"] ex_cs
      (mkDb (mkTables [mkCodingRow 7 "cs-1" "A" None] [] [] 8 1) None)
    = (Throw (badRequest "Unknown property: severity"),
       mkDb (mkTables [mkCodingRow 7 "cs-1" "A" None] [] [] 8 1) None)
  ∧ ∃ d2 propId value,
      processProperties [mkImportedProperty "A" "parent" "A"] ex_cs
        (mkDb (mkTables [mkCodingRow 7 "cs-1" "A" None] [] [] 8 1) None)
      = (Ok tt, d2)
      ∧ property_lookup "cs-1" "parent" (visible d2) = Some propId
      ∧ value_row 7 propId "A" (visible d2) = Some value
      ∧ cp_coding value = 7
      ∧ cp_property value = propId
      ∧ cp_value value = "A"
      ∧ (value_row 7 propId "A"
           (visible (mkDb (mkTables [mkCodingRow 7 "cs-1" "A" None] [] [] 8 1) None))
         = None →
         Coding_Property_rows (visible d2) = [] ++ [value]).
Proof.
  split; [|split].
  - apply (proj1 (processProperties_owning_concept ex_cs []
                    (mkImportedProperty "X" "parent" "A") []
                    (mkDb (mkTables [mkCodingRow 7 "cs-1" "A" None] [] [] 8 1) None)
                    (mkDb (mkTables [mkCodingRow 7 "cs-1" "A" None] [] [] 8 1) None)
                    eq_refl)).
    reflexivity.
  - refine (proj1 (proj2 (processProperties_owning_concept ex_cs []
                            (mkImportedProperty "A" "severity" "high") []
                            (mkDb (mkTables [mkCodingRow 7 "cs-1" "A" None] [] [] 8 1)
                               None)
                            (mkDb (mkTables [mkCodingRow 7 "cs-1" "A" None] [] [] 8 1)
                               None)
                            eq_refl) (mkCodingRow 7 "cs-1" "A" None) eq_refl _)
                    (badRequest "Unknown property: severity") eq_refl).
    simpl. lia.
  - refine (proj2 (proj2 (processProperties_owning_concept ex_cs []
                            (mkImportedProperty "A" "parent" "A") []
                            (mkDb (mkTables [mkCodingRow 7 "cs-1" "A" None] [] [] 8 1)
                               None)
                            (mkDb (mkTables [mkCodingRow 7 "cs-1" "A" None] [] [] 8 1)
                               None)
                            eq_refl) (mkCodingRow 7 "cs-1" "A" None) eq_refl _)
                    (mkCodeSystemProperty "parent" (Some parentProperty) "code" None)
                    eq_refl).
    simpl. lia.
Defined.

(** ** The cache is not observable *)

Lemma has_bar_app p c : has_bar (p +:+ "|" +:+ c) = true.
Proof.
  induction p as [|a p IH]; simpl; [reflexivity|].
  rewrite IH. apply orb_true_r.
Qed.

Lemma cacheKey_not_builtin codeSystem c : cacheKey codeSystem c ∉ builtin_members.
Proof.
  intros Hin.
  assert (Hall : Forall (fun b => has_bar b = false) builtin_members)
    by (repeat constructor).
  rewrite Forall_forall in Hall. apply Hall in Hin.
  unfold cacheKey in Hin. rewrite has_bar_app in Hin. discriminate.
Qed.

(** C9: the resolution cache and crafted property codes.  For every batch,
    whatever strings its property codes are, the writer with the cache returns
    the outcome and leaves the database that the writer without a cache, which
    asks the resolver for every entry, returns and leaves; in particular no
    cache operation raises.  The cache keys of two codes are equal only if the
    codes are, writing the entry of one code does not change the lookup of
    another, and no key is the name of a member of [Object.prototype].  A
    batch naming ["__proto__"], ["constructor"] and ["toString"] twice each is
    run as an instance. *)
Theorem processProperties_cache_transparent :
  (∀ ps codeSystem d,
     processProperties ps codeSystem d = processProperties_nocache ps codeSystem d)
  ∧ (∀ codeSystem c1 c2,
       c1 ≠ c2 → cacheKey codeSystem c1 ≠ cacheKey codeSystem c2)
  ∧ (∀ codeSystem (cache : Cache) c1 c2 r,
       c1 ≠ c2 →
       <[cacheKey codeSystem c1 := r]> cache !! cacheKey codeSystem c2
       = cache !! cacheKey codeSystem c2)
  ∧ (∀ codeSystem (cache : Cache) c r,
       <[cacheKey codeSystem c := r]> cache !! cacheKey codeSystem c = Some r)
  ∧ (∀ codeSystem c, cacheKey codeSystem c ∉ builtin_members)
  ∧ (let crafted :=
       mkCodeSystem "cs-1" "http://ex/cs" None
         (Some [mkCodeSystemProperty "__proto__" None "string" None;
                mkCodeSystemProperty "constructor" None "code" None]) in
     processProperties
       [mkImportedProperty "A" "__proto__" "x";
        mkImportedProperty "A" "constructor" "A";
        mkImportedProperty "A" "__proto__" "y";
        mkImportedProperty "A" "constructor" "B"] crafted
       (mkDb (mkTables [mkCodingRow 1 "cs-1" "A" None] [] [] 2 1) None)
     = (Ok tt,
        mkDb (mkTables [mkCodingRow 1 "cs-1" "A" None]
                [mkPropertyRow 1 "cs-1" "__proto__" "string" None None;
                 mkPropertyRow 2 "cs-1" "constructor" "code" None None]
                [mkCodingPropertyRow 1 1 "x" None;
                 mkCodingPropertyRow 1 2 "A" (Some 1);
                 mkCodingPropertyRow 1 1 "y" None;
                 mkCodingPropertyRow 1 2 "B" None] 2 3) None)
     ∧ processProperties [mkImportedProperty "A" "toString" "x"] crafted
         (mkDb (mkTables [mkCodingRow 1 "cs-1" "A" None] [] [] 2 1) None)
       = (Throw (badRequest "Unknown property: toString"),
          mkDb (mkTables [mkCodingRow 1 "cs-1" "A" None] [] [] 2 1) None)).
Proof.
  split; [exact processProperties_eq_nocache|].
  split; [intros codeSystem c1 c2 Hne Hk; apply cacheKey_inj in Hk; contradiction|].
  split.
  { intros codeSystem cache c1 c2 r Hne. apply lookup_insert_ne.
    intros Hk. apply cacheKey_inj in Hk. contradiction. }
  split; [intros; apply lookup_insert_eq|].
  split; [exact cacheKey_not_builtin|].
  split; vm_compute; reflexivity.
Qed.

Lemma processProperties_cache_transparent_witness :
  cacheKey ex_cs "__proto__" ≠ cacheKey ex_cs "constructor".
Proof.
  apply (proj1 (proj2 processProperties_cache_transparent) ex_cs
           "__proto__" "constructor").
  discriminate.
Defined.

(** ** Property definitions are created once *)

Lemma importCodeSystem_Ok codeSystem concepts properties d d' :
  importCodeSystem codeSystem concepts properties d = (Ok tt, d')
  → ∃ d1,
      processProperties_nocache (default [] properties) codeSystem
        (mkDb (committed d)
           (Some (merge_all (cs_id codeSystem) (default [] concepts) (visible d))))
      = (Ok tt, d1)
      ∧ d' = mkDb (visible d1) None.
Proof.
  rewrite importCodeSystem_eq.
  destruct (processProperties_nocache _ _ _) as [[[]|e] d1]; [|discriminate].
  intros [= <-]. eauto.
Qed.

Lemma find_None_filter {A} (p : A → bool) (l : list A) :
  find p l = None → List.filter p l = [].
Proof.
  induction l as [|x l IH]; simpl; [reflexivity|].
  destruct (p x); [discriminate|exact IH].
Qed.


Lemma resolveProperty_count codeSystem c d r d' sys p :
  resolveProperty codeSystem c d = (r, d')
  → (count_definitions sys p (visible d) <= 1)%nat
  → (count_definitions sys p (visible d') <= 1)%nat.
Proof.
  rewrite resolveProperty_eq.
  destruct (property_definition codeSystem c) as [prop|e]; [|intros [= _ <-]; auto].
  destruct (property_lookup _ _ _) as [known|] eqn:Hl; [intros [= _ <-]; auto|].
  intros [= _ <-]. rewrite visible_db_write.
  unfold count_definitions. simpl. rewrite List.filter_app, length_app. simpl.
  destruct (property_matches sys p _) eqn:Hm; simpl; [|lia].
  unfold property_matches in Hm. simpl in Hm.
  apply andb_true_iff in Hm as [H1 H2]. apply String.eqb_eq in H1, H2. subst sys p.
  unfold property_lookup in Hl.
  destruct (find _ _) eqn:E in Hl; [discriminate|].
  rewrite (find_None_filter _ _ E). simpl. lia.
Qed.

Lemma processProperties_nocache_count ps codeSystem d r d' sys p :
  processProperties_nocache ps codeSystem d = (r, d')
  → (count_definitions sys p (visible d) <= 1)%nat
  → (count_definitions sys p (visible d') <= 1)%nat.
Proof.
  revert d. induction ps as [|imported rest IH]; intros d.
  - intros [= _ <-]. auto.
  - rewrite processProperties_nocache_cons, processProperty_nocache_eq.
    destruct (coding_lookup _ _ _); [|intros [= _ <-]; auto].
    destruct (resolveProperty _ _ d) as [[[propId isRel]|e] d0] eqn:E.
    + intros H Hc. eapply IH; [exact H|]. rewrite visible_db_write.
      pose proof (resolveProperty_count _ _ _ _ _ sys p E Hc) as Hc0.
      unfold ignore_Coding_Property. destruct (existsb _ _); exact Hc0.
    + intros [= _ <-] Hc. eapply resolveProperty_count; eassumption.
Qed.


Lemma importCodeSystem_count_le codeSystem concepts properties d r d' sys p :
  importCodeSystem codeSystem concepts properties d = (r, d')
  → (count_definitions sys p (visible d) <= 1)%nat
  → (count_definitions sys p (visible d') <= 1)%nat.
Proof.
  rewrite importCodeSystem_eq.
  destruct (processProperties_nocache _ _ _) as [r1 d1] eqn:E.
  intros H Hc.
  assert (Hc1 : (count_definitions sys p (visible d1) <= 1)%nat).
  { eapply processProperties_nocache_count; [exact E|].
    unfold count_definitions in *. cbn [visible pending].
    destruct (merge_all_other (cs_id codeSystem) (default [] concepts) (visible d))
      as (-> & _). exact Hc. }
  destruct r1 as [[]|e]; injection H as _ <-; exact Hc1.
Qed.




(** ** The order of the concepts *)

Lemma find_map_set_display sys c s k disp rows :
  find (coding_matches sys c) (map (set_display s k disp) rows)
  = set_display s k disp <$> find (coding_matches sys c) rows.
Proof.
  induction rows as [|r rows IH]; simpl; [reflexivity|].
  assert (Hm : coding_matches sys c (set_display s k disp r) = coding_matches sys c r).
  { unfold set_display. destruct (coding_matches s k r); reflexivity. }
  rewrite Hm. destruct (coding_matches sys c r); [reflexivity|exact IH].
Qed.

Lemma display_of_merge sys c s k disp t :
  display_of sys c (merge_Coding s k disp t)
  = if String.eqb s sys && String.eqb k c then Some disp else display_of sys c t.
Proof.
  unfold display_of, merge_Coding.
  destruct (existsb (coding_matches s k) (Coding_rows t)) eqn:Hex; simpl.
  - rewrite find_map_set_display.
    destruct (String.eqb_spec s sys) as [->|Hs];
      [destruct (String.eqb_spec k c) as [->|Hk]|]; simpl.
    + apply find_existsb in Hex as [r Hr]. rewrite Hr. simpl.
      apply find_true in Hr as [Hr _]. unfold set_display. rewrite Hr. reflexivity.
    + destruct (find _ _) as [r|] eqn:Hr; [|reflexivity]. simpl.
      apply find_true in Hr as [Hr _]. apply coding_matches_eq in Hr as [_ Hc].
      unfold set_display, coding_matches. rewrite Hc.
      destruct (String.eqb_spec c k); [congruence|].
      rewrite andb_false_r. reflexivity.
    + destruct (find _ _) as [r|] eqn:Hr; [|reflexivity]. simpl.
      apply find_true in Hr as [Hr _]. apply coding_matches_eq in Hr as [Hsys _].
      unfold set_display, coding_matches. rewrite Hsys.
      destruct (String.eqb_spec sys s); [congruence|]. reflexivity.
  - assert (Hnone : find (coding_matches s k) (Coding_rows t) = None).
    { destruct (find _ _) eqn:E; [|reflexivity].
      assert (existsb (coding_matches s k) (Coding_rows t) = true)
        by (apply find_existsb; eauto). congruence. }
    destruct (String.eqb_spec s sys) as [->|Hs];
      [destruct (String.eqb_spec k c) as [->|Hk]|]; simpl.
    + rewrite (find_app_None _ _ _ Hnone). simpl.
      unfold coding_matches. simpl. rewrite !String.eqb_refl. reflexivity.
    + destruct (find (coding_matches sys c) (Coding_rows t)) as [r|] eqn:Hr.
      * rewrite (find_app_Some _ _ _ _ Hr). reflexivity.
      * rewrite (find_app_None _ _ _ Hr). simpl. unfold coding_matches. simpl.
        destruct (String.eqb_spec k c); [congruence|].
        rewrite andb_false_r. reflexivity.
    + destruct (find (coding_matches sys c) (Coding_rows t)) as [r|] eqn:Hr.
      * rewrite (find_app_Some _ _ _ _ Hr). reflexivity.
      * rewrite (find_app_None _ _ _ Hr). simpl. unfold coding_matches. simpl.
        destruct (String.eqb_spec s sys); [congruence|]. reflexivity.
Qed.

Lemma merge_all_display_of s concepts t t' :
  (∀ sys c, display_of sys c t = display_of sys c t')
  → ∀ sys c, display_of sys c (merge_all s concepts t)
             = display_of sys c (merge_all s concepts t').
Proof.
  revert t t'. induction concepts as [|x rest IH]; intros t t' H; [exact H|].
  simpl. apply IH. intros sys c. rewrite !display_of_merge, H. reflexivity.
Qed.

Lemma merge_all_permutation s l l' :
  l ≡ₚ l' → displays_agree l →
  ∀ t t', (∀ sys c, display_of sys c t = display_of sys c t')
          → ∀ sys c, display_of sys c (merge_all s l t)
                     = display_of sys c (merge_all s l' t').
Proof.
  induction 1 as [|x l l' Hperm IH|x y l|l l' l'' Hp1 IH1 Hp2 IH2];
    intros Hagree t t' Ht.
  - exact Ht.
  - simpl. apply IH.
    + intros a b Ha Hb. apply Hagree; right; assumption.
    + intros sys c. rewrite !display_of_merge, Ht. reflexivity.
  - simpl. apply merge_all_display_of. intros sys c.
    rewrite !display_of_merge, Ht.
    destruct (String.eqb_spec s sys) as [->|]; simpl; [|reflexivity].
    destruct (String.eqb_spec (concept_code x) c) as [Hx|]; simpl; [|reflexivity].
    destruct (String.eqb_spec (concept_code y) c) as [Hy|]; simpl; [|reflexivity].
    f_equal. apply Hagree; [first [left|right; left]..|congruence].
  - intros sys c. rewrite (IH1 Hagree t t (fun _ _ => eq_refl)).
    apply IH2; [|exact Ht].
    intros a b Ha Hb. apply Hagree; rewrite Hp1; assumption.
Qed.

(** C8 (as amended): order of the concepts.  For every CodeSystem, every
    state of the database and every property batch, when no two concepts of
    the batch give one code different displays, the import of the batch and
    the import of a permutation of it leave the same codes with the same
    displays in the Coding table; the row ids follow the order of insertion
    and are not compared. *)
Theorem importCodeSystem_concept_order codeSystem l l' properties d
  (Hperm : l ≡ₚ l') (Hagree : displays_agree l) :
  ∀ sys c,
    display_of sys c (visible (importCodeSystem codeSystem (Some l) properties d).2)
    = display_of sys c (visible (importCodeSystem codeSystem (Some l') properties d).2).
Proof.
  intros sys c. unfold display_of. rewrite !importCodeSystem_Coding_rows.
  apply (merge_all_permutation (cs_id codeSystem) l l' Hperm Hagree
           (visible d) (visible d) (fun _ _ => eq_refl) sys c).
Qed.

Lemma displays_agree_distinct x y :
  concept_code x ≠ concept_code y → displays_agree [x; y].
Proof.
  intros Hne a b Ha Hb Hcode.
  apply list_elem_of_In in Ha, Hb. simpl in Ha, Hb.
  destruct Ha as [<-|[<-|[]]], Hb as [<-|[<-|[]]]; congruence.
Qed.

Lemma importCodeSystem_concept_order_witness :
  display_of "cs-1" "A"
    (visible (importCodeSystem ex_cs
                (Some [mkCoding "A" (Some "a"); mkCoding "B" None]) None empty_db).2)
  = display_of "cs-1" "A"
      (visible (importCodeSystem ex_cs
                  (Some [mkCoding "B" None; mkCoding "A" (Some "a")]) None empty_db).2).
Proof.
  apply (importCodeSystem_concept_order ex_cs
           [mkCoding "A" (Some "a"); mkCoding "B" None]
           [mkCoding "B" None; mkCoding "A" (Some "a")] None empty_db).
  - apply perm_swap.
  - apply displays_agree_distinct. discriminate.
Defined.

(** C8 as stated fails: two concepts with one code and different displays
    leave the display of the later one, so the two orders differ; and with
    distinct codes the ids of the rows follow the order of the batch. *)
Lemma concept_order_counterexample :
  [mkCoding "A" (Some "x"); mkCoding "A" (Some "y")]
    ≡ₚ [mkCoding "A" (Some "y"); mkCoding "A" (Some "x")]
  ∧ Coding_rows (visible (importCodeSystem ex_cs
      (Some [mkCoding "A" (Some "x"); mkCoding "A" (Some "y")]) None empty_db).2)
    = [mkCodingRow 1 "cs-1" "A" (Some "y")]
  ∧ Coding_rows (visible (importCodeSystem ex_cs
      (Some [mkCoding "A" (Some "y"); mkCoding "A" (Some "x")]) None empty_db).2)
    = [mkCodingRow 1 "cs-1" "A" (Some "x")]
  ∧ Coding_rows (visible (importCodeSystem ex_cs
      (Some [mkCoding "A" (Some "x"); mkCoding "A" (Some "y")]) None empty_db).2)
    ≠ Coding_rows (visible (importCodeSystem ex_cs
      (Some [mkCoding "A" (Some "y"); mkCoding "A" (Some "x")]) None empty_db).2)
  ∧ Coding_rows (visible (importCodeSystem ex_cs
      (Some [mkCoding "A" None; mkCoding "B" None]) None empty_db).2)
    ≠ Coding_rows (visible (importCodeSystem ex_cs
      (Some [mkCoding "B" None; mkCoding "A" None]) None empty_db).2).
Proof.
  split; [apply perm_swap|].
  vm_compute. repeat split; discriminate.
Qed.

(** ** Server-assigned ids *)

Lemma tables_ok_merge sys c disp t : tables_ok t → tables_ok (merge_Coding sys c disp t).
Proof.
  intros (Hpos & Hseq & Hnd & Hlt). unfold merge_Coding, tables_ok.
  destruct (existsb _ _); simpl; repeat split; try assumption; try lia.
  - apply Forall_map. eapply Forall_impl; [exact Hpos|]. simpl.
    intros r Hr. rewrite set_display_id. exact Hr.
  - apply Forall_app. split; [exact Hpos|]. constructor; [exact Hseq|constructor].
Qed.

Lemma tables_ok_merge_all sys concepts t :
  tables_ok t → tables_ok (merge_all sys concepts t).
Proof.
  revert t. induction concepts as [|x rest IH]; intros t Hok; [exact Hok|].
  simpl. apply IH, tables_ok_merge, Hok.
Qed.

Lemma tables_ok_add sys c ty uri descr t :
  tables_ok t → tables_ok (add_CodeSystem_Property sys c ty uri descr t).
Proof.
  intros (Hpos & Hseq & Hnd & Hlt). unfold add_CodeSystem_Property, tables_ok. simpl.
  repeat split; try assumption.
  - rewrite fmap_app. apply NoDup_app. split; [exact Hnd|]. split.
    + intros i Hi Hi'. simpl in Hi'. apply list_elem_of_singleton in Hi'. subst i.
      apply list_elem_of_fmap in Hi as (r & Hr & Hin).
      rewrite Forall_forall in Hlt. specialize (Hlt r Hin). lia.
    + simpl. apply NoDup_singleton.
  - apply Forall_app. split.
    + eapply Forall_impl; [exact Hlt|]. simpl. intros; lia.
    + constructor; [simpl; lia|constructor].
Qed.

Lemma tables_ok_ignore row t : tables_ok t → tables_ok (ignore_Coding_Property row t).
Proof.
  unfold ignore_Coding_Property. destruct (existsb _ _); [auto|].
  intros Hok. exact Hok.
Qed.

Lemma resolveProperty_tables_ok codeSystem c d r d' :
  resolveProperty codeSystem c d = (r, d')
  → tables_ok (visible d) → tables_ok (visible d').
Proof.
  rewrite resolveProperty_eq.
  destruct (property_definition codeSystem c); [|intros [= _ <-]; auto].
  destruct (property_lookup _ _ _); intros [= _ <-]; [auto|].
  rewrite visible_db_write. apply tables_ok_add.
Qed.

Lemma processProperties_nocache_tables_ok ps codeSystem d r d' :
  processProperties_nocache ps codeSystem d = (r, d')
  → tables_ok (visible d) → tables_ok (visible d').
Proof.
  revert d. induction ps as [|imported rest IH]; intros d.
  - intros [= _ <-]. auto.
  - rewrite processProperties_nocache_cons, processProperty_nocache_eq.
    destruct (coding_lookup _ _ _); [|intros [= _ <-]; auto].
    destruct (resolveProperty _ _ d) as [[[propId isRel]|e] d0] eqn:E.
    + intros H Hok. eapply IH; [exact H|]. rewrite visible_db_write.
      apply tables_ok_ignore. eapply resolveProperty_tables_ok; eassumption.
    + intros [= _ <-] Hok. eapply resolveProperty_tables_ok; eassumption.
Qed.

Lemma importCodeSystem_tables_ok codeSystem concepts properties d :
  tables_ok (visible d)
  → tables_ok (visible (importCodeSystem codeSystem concepts properties d).2).
Proof.
  intros Hok. rewrite importCodeSystem_eq.
  destruct (processProperties_nocache _ _ _) as [r d1] eqn:E.
  assert (Hok1 : tables_ok (visible d1)).
  { eapply processProperties_nocache_tables_ok; [exact E|].
    apply tables_ok_merge_all, Hok. }
  destruct r as [[]|e]; exact Hok1.
Qed.

Lemma NoDup_fmap_elem {A B} (f : A → B) (l : list A) x y :
  NoDup (f <$> l) → x ∈ l → y ∈ l → f x = f y → x = y.
Proof.
  induction l as [|a l IH]; intros Hnd Hx Hy Hf; [inversion Hx|].
  rewrite fmap_cons in Hnd. apply NoDup_cons in Hnd as [Hnot Hnd].
  apply list_elem_of_In in Hx, Hy. simpl in Hx, Hy.
  destruct Hx as [<-|Hx], Hy as [<-|Hy]; [reflexivity| | |].
  - exfalso. apply Hnot. apply list_elem_of_fmap. exists y.
    split; [exact Hf|apply list_elem_of_In, Hy].
  - exfalso. apply Hnot. apply list_elem_of_fmap. exists x.
    split; [symmetry; exact Hf|apply list_elem_of_In, Hx].
  - apply IH; try assumption; apply list_elem_of_In; assumption.
Qed.

(** Two codes of one CodeSystem with the same definition id are one code. *)
Lemma property_lookup_inj sys c1 c2 t i :
  tables_ok t → property_lookup sys c1 t = Some i → property_lookup sys c2 t = Some i
  → c1 = c2.
Proof.
  intros (_ & _ & Hnd & _). unfold property_lookup.
  destruct (find (property_matches sys c1) _) as [r1|] eqn:E1; [|discriminate].
  destruct (find (property_matches sys c2) _) as [r2|] eqn:E2; [|discriminate].
  simpl. intros [= H1] [= H2].
  apply find_true in E1 as [M1 In1]. apply find_true in E2 as [M2 In2].
  assert (r1 = r2)
    by (eapply (NoDup_fmap_elem property_id); eauto; congruence).
  subst r2. unfold property_matches in M1, M2.
  apply andb_true_iff in M1 as [_ M1]. apply andb_true_iff in M2 as [_ M2].
  apply String.eqb_eq in M1, M2. congruence.
Qed.

(** ** Where the value rows come from *)

Lemma resolveProperty_values codeSystem c d r d' :
  resolveProperty codeSystem c d = (r, d')
  → Coding_Property_rows (visible d') = Coding_Property_rows (visible d).
Proof.
  rewrite resolveProperty_eq.
  destruct (property_definition codeSystem c); [|intros [= _ <-]; auto].
  destruct (property_lookup _ _ _); intros [= _ <-]; [auto|].
  rewrite visible_db_write. reflexivity.
Qed.

Lemma processProperty_nocache_origin codeSystem imported d d' row :
  processProperty_nocache codeSystem imported d = (Ok tt, d')
  → row ∈ Coding_Property_rows (visible d')
  → row ∈ Coding_Property_rows (visible d)
    ∨ row_for codeSystem imported (visible d') = Some row.
Proof.
  rewrite processProperty_nocache_eq.
  destruct (coding_lookup _ _ _) as [codingId|] eqn:Hc; [|discriminate].
  destruct (resolveProperty _ _ d) as [[[propId isRel]|e0] d0] eqn:E; [|discriminate].
  pose proof (resolveProperty_values _ _ _ _ _ E) as Hvals.
  apply resolveProperty_Ok in E as (Hext & (prop & Hdef & Hrel & Hl) & _).
  simpl in Hrel, Hl. intros [= <-]. rewrite visible_db_write.
  set (new := mkCodingPropertyRow _ _ _ _).
  pose proof (extends_ignore new (visible d0)) as Hext'.
  intros Hin.
  assert (Hnew : row ∈ Coding_Property_rows (visible d0) ∨ row = new).
  { unfold ignore_Coding_Property in Hin. destruct (existsb _ _); [auto|].
    simpl in Hin. apply elem_of_app in Hin as [Hin|Hin]; [auto|].
    apply list_elem_of_singleton in Hin. auto. }
  destruct Hnew as [Hold| ->]; [left; rewrite <- Hvals; exact Hold|right].
  unfold row_for.
  rewrite !(coding_lookup_extends _ _ _ _ Hext'), (coding_lookup_extends _ _ _ _ Hext),
    Hc, Hdef, (property_lookup_extends _ _ _ _ _ Hext' Hl), <- Hrel.
  reflexivity.
Qed.

Lemma processProperties_nocache_origin ps codeSystem d d' row :
  processProperties_nocache ps codeSystem d = (Ok tt, d')
  → row ∈ Coding_Property_rows (visible d')
  → row ∈ Coding_Property_rows (visible d)
    ∨ ∃ imported, imported ∈ ps ∧ row_for codeSystem imported (visible d') = Some row.
Proof.
  revert d. induction ps as [|imported rest IH]; intros d.
  - intros [= <-]. auto.
  - rewrite processProperties_nocache_cons.
    destruct (processProperty_nocache codeSystem imported d) as [[[]|e] d0] eqn:E;
      [|discriminate].
    intros H Hin. destruct (IH _ H Hin) as [Hold|(x & Hx & Hrow)].
    + destruct (processProperty_nocache_origin _ _ _ _ _ E Hold) as [Hd|Hrow];
        [left; exact Hd|right].
      exists imported. split; [left|].
      apply processProperties_nocache_frame in H as [Hext _].
      eapply row_for_extends; eassumption.
    + right. exists x. split; [right; exact Hx|exact Hrow].
Qed.

Lemma find_None_elem {A} (p : A → bool) (l : list A) x :
  find p l = None → x ∈ l → p x = false.
Proof.
  induction l as [|y l IH]; intros Hf Hx; [inversion Hx|].
  simpl in Hf. destruct (p y) eqn:E; [discriminate|].
  apply list_elem_of_In in Hx. simpl in Hx. destruct Hx as [<-|Hx]; [exact E|].
  apply IH; [exact Hf|apply list_elem_of_In, Hx].
Qed.

(** The value row stored for an entry of a successful pass is, unless it was
    stored before the pass, the row the writer builds for the entry. *)
Lemma processProperties_nocache_row ps codeSystem d d' imported :
  processProperties_nocache ps codeSystem d = (Ok tt, d')
  → tables_ok (visible d)
  → imported ∈ ps
  → ∃ codingId propId row,
      coding_lookup (cs_id codeSystem) (ip_code imported) (visible d') = Some codingId
      ∧ property_lookup (cs_id codeSystem) (ip_property imported) (visible d')
        = Some propId
      ∧ value_row codingId propId (ip_value imported) (visible d') = Some row
      ∧ (value_row codingId propId (ip_value imported) (visible d) = None
         → row_for codeSystem imported (visible d') = Some row).
Proof.
  intros Hrun Hok Hin.
  pose proof (processProperties_nocache_tables_ok _ _ _ _ _ Hrun Hok) as Hok'.
  pose proof (processProperties_nocache_stored _ _ _ _ Hrun) as Hst.
  rewrite Forall_forall in Hst.
  destruct (Hst _ Hin) as (codingId & [propId isRel] & Hc & (prop & Hdef & Hrel & Hl)
                           & [row Hrow]).
  simpl in Hrel, Hl, Hrow.
  exists codingId, propId, row. repeat split; try assumption.
  intros Hnone.
  pose proof (value_row_fields _ _ _ _ _ Hrow) as (Hrin & F1 & F2 & F3).
  destruct (processProperties_nocache_origin _ _ _ _ _ Hrun Hrin)
    as [Hold|(x & Hx & Hfor)].
  - exfalso. pose proof (find_None_elem _ _ _ Hnone Hold) as Hfalse.
    unfold cp_conflicts in Hfalse. simpl in Hfalse.
    rewrite F1, F2, F3, !Z.eqb_refl, String.eqb_refl in Hfalse. discriminate.
  - unfold row_for in Hfor |- *. rewrite Hc, Hdef, Hl.
    destruct (coding_lookup _ (ip_code x) _) as [cx|]; [|discriminate].
    destruct (property_definition codeSystem (ip_property x)) as [px|] eqn:Hdx;
      [|discriminate].
    destruct (property_lookup _ (ip_property x) _) as [ix|] eqn:Hlx; [|discriminate].
    injection Hfor as <-. simpl in F1, F2, F3. subst cx ix.
    assert (Hp : ip_property x = ip_property imported)
      by (eapply property_lookup_inj; eassumption).
    rewrite Hp, Hdef in Hdx. injection Hdx as <-. rewrite F3. reflexivity.
Qed.

(** ** Linking a relationship to a concept of the same batch *)

Lemma importCodeSystem_link codeSystem concepts ps d d' imported prop target :
  importCodeSystem codeSystem (Some concepts) (Some ps) d = (Ok tt, d')
  → tables_ok (visible d)
  → imported ∈ ps
  → property_definition codeSystem (ip_property imported) = Ok prop
  → prop_type prop = "code"
  → target ∈ concepts
  → concept_code target = ip_value imported
  → ∃ codingId propId targetRow row,
      coding_lookup (cs_id codeSystem) (ip_code imported) (committed d') = Some codingId
      ∧ property_lookup (cs_id codeSystem) (ip_property imported) (committed d')
        = Some propId
      ∧ find (coding_matches (cs_id codeSystem) (ip_value imported))
          (Coding_rows (committed d')) = Some targetRow
      ∧ value_row codingId propId (ip_value imported) (committed d') = Some row
      ∧ (value_row codingId propId (ip_value imported) (visible d) = None
         → cp_target row = Some (coding_id targetRow)).
Proof.
  intros Himport Hok Hin Hdef Htype Htarget Hcode.
  apply importCodeSystem_Ok in Himport as (d1 & Hrun & ->).
  change (processProperties_nocache ps codeSystem
            (mkDb (committed d)
               (Some (merge_all (cs_id codeSystem) concepts (visible d))))
          = (Ok tt, d1)) in Hrun.
  cbn [committed].
  set (t0 := merge_all (cs_id codeSystem) concepts (visible d)) in *.
  assert (Hok0 : tables_ok t0) by apply tables_ok_merge_all, Hok.
  pose proof (processProperties_nocache_frame _ _ _ _ _ Hrun) as [Hext _].
  cbn [visible pending] in Hext.
  destruct (processProperties_nocache_row _ _ _ _ _ Hrun Hok0 Hin)
    as (codingId & propId & row & Hc & Hl & Hrow & Hbuilt).
  cbn [visible pending] in Hbuilt.
  pose proof (merge_all_present (cs_id codeSystem) concepts (visible d) target Htarget)
    as Hpresent.
  fold t0 in Hpresent. rewrite Hcode in Hpresent.
  apply find_existsb in Hpresent as [targetRow Htr].
  assert (Hpos : 0 < coding_id targetRow).
  { destruct Hok0 as (Hpos & _). rewrite Forall_forall in Hpos.
    apply Hpos. apply find_true in Htr as [_ Htr]. exact Htr. }
  exists codingId, propId, targetRow, row.
  split; [exact Hc|]. split; [exact Hl|].
  destruct Hext as (Hrows & _). split; [rewrite Hrows; exact Htr|].
  split; [exact Hrow|].
  intros Hnone.
  assert (Hnone0 : value_row codingId propId (ip_value imported) t0 = None).
  { unfold value_row in *. subst t0.
    destruct (merge_all_other (cs_id codeSystem) concepts (visible d)) as (_ & -> & _).
    exact Hnone. }
  specialize (Hbuilt Hnone0). unfold row_for in Hbuilt.
  rewrite Hc, Hdef, Hl, Htype in Hbuilt. simpl in Hbuilt.
  injection Hbuilt as <-. simpl.
  unfold coding_lookup. rewrite Hrows, Htr. simpl.
  destruct (Z.eqb_spec (coding_id targetRow) 0); [lia|reflexivity].
Qed.

(** C3 (as amended): intra-batch linkage.  In a successful import into a
    database whose ids are server-assigned, for every imported property whose
    resolved definition is a relationship (type ["code"]) and whose value is
    the code of a concept of the same batch, wherever that concept stands: a
    Coding_Property row is stored for the entry's coding, property and value,
    and when no row with that coding, property and value was stored before the
    import, its target is the id of the concept's Coding row.  A row stored
    before the import is left as it is. *)
Theorem importCodeSystem_intra_batch_linkage
  codeSystem concepts ps d d' imported prop target
  (Himport : importCodeSystem codeSystem (Some concepts) (Some ps) d = (Ok tt, d'))
  (Hids : tables_ok (visible d))
  (Hentry : imported ∈ ps)
  (Hdefinition : property_definition codeSystem (ip_property imported) = Ok prop)
  (Hrelationship : prop_type prop = "code")
  (Htarget : target ∈ concepts)
  (Hvalue : concept_code target = ip_value imported) :
  ∃ codingId propId targetRow row,
    coding_lookup (cs_id codeSystem) (ip_code imported) (committed d') = Some codingId
    ∧ property_lookup (cs_id codeSystem) (ip_property imported) (committed d')
      = Some propId
    ∧ find (coding_matches (cs_id codeSystem) (concept_code target))
        (Coding_rows (committed d')) = Some targetRow
    ∧ value_row codingId propId (ip_value imported) (committed d') = Some row
    ∧ (value_row codingId propId (ip_value imported) (visible d) = None
       → cp_target row = Some (coding_id targetRow)).
Proof.
  rewrite Hvalue. eapply importCodeSystem_link; eassumption.
Qed.

(** C4 (as amended): the position of the target concept.  In a successful
    import into a database whose ids are server-assigned, a relationship
    property whose target concept is imported in the same batch gets a row
    with a non-null target when no row with the same coding, property and
    value was stored before, whether the target concept stands before the
    owning concept in the batch or not. *)
Theorem importCodeSystem_link_any_position
  codeSystem concepts ps d d' imported prop target earlier
  (Himport : importCodeSystem codeSystem (Some concepts) (Some ps) d = (Ok tt, d'))
  (Hids : tables_ok (visible d))
  (Hentry : imported ∈ ps)
  (Hdefinition : property_definition codeSystem (ip_property imported) = Ok prop)
  (Hrelationship : prop_type prop = "code")
  (Htarget : target ∈ concepts)
  (Hvalue : concept_code target = ip_value imported)
  (Hposition :
     appears_earlier (ip_value imported) (ip_code imported) concepts = earlier) :
  ∃ codingId propId row,
    coding_lookup (cs_id codeSystem) (ip_code imported) (committed d') = Some codingId
    ∧ property_lookup (cs_id codeSystem) (ip_property imported) (committed d')
      = Some propId
    ∧ value_row codingId propId (ip_value imported) (committed d') = Some row
    ∧ (value_row codingId propId (ip_value imported) (visible d) = None
       → cp_target row ≠ None).
Proof.
  destruct (importCodeSystem_link _ _ _ _ _ _ _ _
              Himport Hids Hentry Hdefinition Hrelationship Htarget Hvalue)
    as (codingId & propId & targetRow & row & Hc & Hl & _ & Hrow & Hlink).
  exists codingId, propId, row. repeat split; try assumption.
  intros Hnone. rewrite (Hlink Hnone). discriminate.
Qed.

Lemma tables_ok_empty : tables_ok (visible empty_db).
Proof.
  unfold tables_ok. simpl. repeat split; try constructor; lia.
Qed.

Lemma importCodeSystem_intra_batch_linkage_witness :
  ∃ codingId propId targetRow row,
    coding_lookup "cs-1" "B"
      (mkTables [mkCodingRow 1 "cs-1" "A" None; mkCodingRow 2 "cs-1" "B" None]
         [mkPropertyRow 1 "cs-1" "parent" "code" (Some parentProperty) None]
         [mkCodingPropertyRow 2 1 "A" (Some 1)] 3 2) = Some codingId
    ∧ property_lookup "cs-1" "parent"
        (mkTables [mkCodingRow 1 "cs-1" "A" None; mkCodingRow 2 "cs-1" "B" None]
           [mkPropertyRow 1 "cs-1" "parent" "code" (Some parentProperty) None]
           [mkCodingPropertyRow 2 1 "A" (Some 1)] 3 2) = Some propId
    ∧ find (coding_matches "cs-1" "A")
        [mkCodingRow 1 "cs-1" "A" None; mkCodingRow 2 "cs-1" "B" None]
      = Some targetRow
    ∧ value_row codingId propId "A"
        (mkTables [mkCodingRow 1 "cs-1" "A" None; mkCodingRow 2 "cs-1" "B" None]
           [mkPropertyRow 1 "cs-1" "parent" "code" (Some parentProperty) None]
           [mkCodingPropertyRow 2 1 "A" (Some 1)] 3 2) = Some row
    ∧ (value_row codingId propId "A" (visible empty_db) = None
       → cp_target row = Some (coding_id targetRow)).
Proof.
  exact (importCodeSystem_intra_batch_linkage ex_cs
           [mkCoding "A" None; mkCoding "B" None]
           [mkImportedProperty "B" "parent" "A"] empty_db _
           (mkImportedProperty "B" "parent" "A")
           (mkCodeSystemProperty "parent" (Some parentProperty) "code" None)
           (mkCoding "A" None)
           eq_refl tables_ok_empty
           (list_elem_of_here _ _) eq_refl eq_refl (list_elem_of_here _ _) eq_refl).
Defined.

Lemma importCodeSystem_link_any_position_witness :
  ∃ codingId propId row,
    coding_lookup "cs-1" "B"
      (mkTables [mkCodingRow 1 "cs-1" "B" None; mkCodingRow 2 "cs-1" "A" None]
         [mkPropertyRow 1 "cs-1" "parent" "code" (Some parentProperty) None]
         [mkCodingPropertyRow 1 1 "A" (Some 2)] 3 2) = Some codingId
    ∧ property_lookup "cs-1" "parent"
        (mkTables [mkCodingRow 1 "cs-1" "B" None; mkCodingRow 2 "cs-1" "A" None]
           [mkPropertyRow 1 "cs-1" "parent" "code" (Some parentProperty) None]
           [mkCodingPropertyRow 1 1 "A" (Some 2)] 3 2) = Some propId
    ∧ value_row codingId propId "A"
        (mkTables [mkCodingRow 1 "cs-1" "B" None; mkCodingRow 2 "cs-1" "A" None]
           [mkPropertyRow 1 "cs-1" "parent" "code" (Some parentProperty) None]
           [mkCodingPropertyRow 1 1 "A" (Some 2)] 3 2) = Some row
    ∧ (value_row codingId propId "A" (visible empty_db) = None
       → cp_target row ≠ None).
Proof.
  refine (importCodeSystem_link_any_position ex_cs
            [mkCoding "B" None; mkCoding "A" None]
            [mkImportedProperty "B" "parent" "A"] empty_db
            (mkDb (mkTables
                     [mkCodingRow 1 "cs-1" "B" None; mkCodingRow 2 "cs-1" "A" None]
                     [mkPropertyRow 1 "cs-1" "parent" "code" (Some parentProperty) None]
                     [mkCodingPropertyRow 1 1 "A" (Some 2)] 3 2) None)
            (mkImportedProperty "B" "parent" "A")
            (mkCodeSystemProperty "parent" (Some parentProperty) "code" None)
            (mkCoding "A" None) false
            _ tables_ok_empty
            (list_elem_of_here _ _) eq_refl eq_refl _ eq_refl eq_refl).
  - vm_compute. reflexivity.
  - right. left.
Defined.

(** C3 as stated fails.  A first import stores the relationship of B to the
    code A while A is not a concept yet, so the row has no target.  A second,
    successful import brings the concept A in the same batch as the same
    property: the row of B, parent, A is left as it was, without a target,
    although A now has the Coding row 2. *)
Lemma intra_batch_linkage_counterexample :
  let before :=
    (importCodeSystem ex_cs (Some [mkCoding "B" None])
       (Some [mkImportedProperty "B" "parent" "A"]) empty_db).2 in
  let after :=
    importCodeSystem ex_cs (Some [mkCoding "A" None; mkCoding "B" None])
      (Some [mkImportedProperty "B" "parent" "A"]) before in
  after.1 = Ok tt
  ∧ property_definition ex_cs "parent"
    = Ok (mkCodeSystemProperty "parent" (Some parentProperty) "code" None)
  ∧ Coding_rows (committed after.2)
    = [mkCodingRow 1 "cs-1" "B" None; mkCodingRow 2 "cs-1" "A" None]
  ∧ Coding_Property_rows (committed after.2) = [mkCodingPropertyRow 1 1 "A" None]
  ∧ ¬ (∃ row, row ∈ Coding_Property_rows (committed after.2)
              ∧ cp_value row = "A" ∧ cp_target row = Some 2).
Proof.
  vm_compute. repeat split.
  intros (row & Hin & _ & Htarget).
  apply list_elem_of_singleton in Hin. subst row. discriminate.
Qed.

(** C4 as stated fails in both directions.  With the concepts in the order
    B, A the target A does not stand before the owning concept B and was not
    stored before, and the row of B still gets the target, the id of A.  With
    the order A, B on a database that holds the row of B, parent, A from an
    earlier import, the target stands first and was not stored before, and
    the row keeps its empty target. *)
Lemma earlier_target_counterexample :
  (let after :=
     importCodeSystem ex_cs (Some [mkCoding "B" None; mkCoding "A" None])
       (Some [mkImportedProperty "B" "parent" "A"]) empty_db in
   appears_earlier "A" "B" [mkCoding "B" None; mkCoding "A" None] = false
   ∧ find (coding_matches "cs-1" "A") (Coding_rows (visible empty_db)) = None
   ∧ after.1 = Ok tt
   ∧ Coding_Property_rows (committed after.2) = [mkCodingPropertyRow 1 1 "A" (Some 2)])
  ∧ (let before :=
       (importCodeSystem ex_cs (Some [mkCoding "B" None])
          (Some [mkImportedProperty "B" "parent" "A"]) empty_db).2 in
     let after :=
       importCodeSystem ex_cs (Some [mkCoding "A" None; mkCoding "B" None])
         (Some [mkImportedProperty "B" "parent" "A"]) before in
     appears_earlier "A" "B" [mkCoding "A" None; mkCoding "B" None] = true
     ∧ find (coding_matches "cs-1" "A") (Coding_rows (visible before)) = None
     ∧ after.1 = Ok tt
     ∧ Coding_Property_rows (committed after.2) = [mkCodingPropertyRow 1 1 "A" None]).
Proof.
  vm_compute. repeat split.
Qed.

(** * Further properties of the import *)

(** ** The outcome of an import *)

Lemma first_error_extends codeSystem t t' ps :
  extends t t' → first_error codeSystem t' ps = first_error codeSystem t ps.
Proof.
  intros Hext. induction ps as [|imported rest IH]; simpl; [reflexivity|].
  rewrite (coding_lookup_extends _ _ _ _ Hext), IH. reflexivity.
Qed.

Lemma processProperties_nocache_outcome ps codeSystem d :
  (processProperties_nocache ps codeSystem d).1
  = match first_error codeSystem (visible d) ps with
    | None => Ok tt
    | Some e => Throw e
    end.
Proof.
  revert d. induction ps as [|imported rest IH]; intros d; [reflexivity|].
  rewrite processProperties_nocache_cons. simpl first_error.
  destruct (processProperty_nocache codeSystem imported d) as [[[]|e] d0] eqn:E.
  - pose proof (processProperty_nocache_Ok _ _ _ _ E)
      as (Hext & (codingId & r & Hc & (prop & Hdef & _) & _) & _).
    rewrite (coding_lookup_extends _ _ _ _ Hext) in Hc. rewrite Hc, Hdef, IH.
    rewrite (first_error_extends _ _ _ _ Hext). reflexivity.
  - rewrite processProperty_nocache_eq in E.
    destruct (coding_lookup _ _ _); [|injection E as <- _; reflexivity].
    destruct (resolveProperty _ _ d) as [[[propId isRel]|e0] d1] eqn:E0;
      [discriminate|].
    injection E as -> _. apply resolveProperty_Throw in E0 as [_ ->]. reflexivity.
Qed.

(** X1: the outcome of an import is decided by the property entries alone,
    read against the concepts as the concept pass leaves them: the import
    throws the error of the first entry whose code has no Coding row or whose
    property does not resolve, and succeeds when there is no such entry. *)
Theorem importCodeSystem_outcome codeSystem concepts properties d :
  (importCodeSystem codeSystem concepts properties d).1
  = match first_error codeSystem
            (merge_all (cs_id codeSystem) (default [] concepts) (visible d))
            (default [] properties) with
    | None => Ok tt
    | Some e => Throw e
    end.
Proof.
  rewrite importCodeSystem_eq.
  pose proof (processProperties_nocache_outcome (default [] properties) codeSystem
                (mkDb (committed d)
                   (Some (merge_all (cs_id codeSystem) (default [] concepts) (visible d)))))
    as H.
  cbn [visible pending] in H. rewrite <- H.
  destruct (processProperties_nocache _ _ _) as [[[]|e] d1]; reflexivity.
Qed.

(** X2: an import without properties (absent or empty list) succeeds for
    every batch of concepts and every state of the database, and it leaves
    the property definitions and the property values as they were. *)
Theorem importCodeSystem_concepts_only codeSystem concepts d :
  ∀ properties, properties = None ∨ properties = Some [] →
  (importCodeSystem codeSystem concepts properties d).1 = Ok tt
  ∧ CodeSystem_Property_rows
      (visible (importCodeSystem codeSystem concepts properties d).2)
    = CodeSystem_Property_rows (visible d)
  ∧ Coding_Property_rows
      (visible (importCodeSystem codeSystem concepts properties d).2)
    = Coding_Property_rows (visible d).
Proof.
  intros properties Hp.
  assert (Hrun : importCodeSystem codeSystem concepts properties d
                 = (Ok tt, mkDb (merge_all (cs_id codeSystem) (default [] concepts)
                                   (visible d)) None)).
  { rewrite importCodeSystem_eq. destruct Hp as [-> | ->]; reflexivity. }
  rewrite Hrun. cbn [fst snd visible pending committed].
  destruct (merge_all_other (cs_id codeSystem) (default [] concepts) (visible d))
    as (-> & -> & _).
  auto.
Qed.

Lemma importCodeSystem_concepts_only_witness :
  (importCodeSystem ex_cs (Some [mkCoding "A" None]) (Some []) empty_db).1 = Ok tt.
Proof.
  exact (proj1 (importCodeSystem_concepts_only ex_cs (Some [mkCoding "A" None])
                  empty_db (Some []) (or_intror eq_refl))).
Defined.

(** ** The transaction *)

(** X3: how an import leaves the transaction.  After a successful import no
    transaction is open and the committed tables are the ones the handle shows.
    After a failed import the committed tables are those from before the call
    and the transaction is still open: the function never rolls back. *)
Theorem importCodeSystem_transaction codeSystem concepts properties d r d'
  (Himport : importCodeSystem codeSystem concepts properties d = (r, d')) :
  (r = Ok tt → pending d' = None ∧ committed d' = visible d')
  ∧ (∀ e, r = Throw e → pending d' = Some (visible d') ∧ committed d' = committed d).
Proof.
  split.
  - intros ->. apply importCodeSystem_Ok in Himport as (d1 & _ & ->). auto.
  - intros e ->. eapply importCodeSystem_Throw_open. exact Himport.
Qed.

Lemma importCodeSystem_transaction_witness :
  pending (importCodeSystem ex_cs (Some [mkCoding "A" None])
             (Some [mkImportedProperty "X" "parent" "A"]) empty_db).2
  = Some (mkTables [mkCodingRow 1 "cs-1" "A" None] [] [] 2 1)
  ∧ committed (importCodeSystem ex_cs (Some [mkCoding "A" None])
                 (Some [mkImportedProperty "X" "parent" "A"]) empty_db).2
    = empty_tables.
Proof.
  exact (proj2 (importCodeSystem_transaction ex_cs (Some [mkCoding "A" None])
                  (Some [mkImportedProperty "X" "parent" "A"]) empty_db _ _ eq_refl)
           (badRequest "Unknown code: http://ex/cs|X") eq_refl).
Defined.

(** ** Rows are added, never removed *)

Lemma set_display_key sys c disp r : coding_key (set_display sys c disp r) = coding_key r.
Proof. unfold set_display. destruct (coding_matches sys c r); reflexivity. Qed.

Lemma merge_Coding_keys sys c disp t :
  (coding_key <$> Coding_rows t)
    `prefix_of` (coding_key <$> Coding_rows (merge_Coding sys c disp t)).
Proof.
  unfold merge_Coding. destruct (existsb _ _); simpl.
  - exists []. rewrite app_nil_r, <- list_fmap_compose. apply list_fmap_ext.
    intros i r _. simpl. apply set_display_key.
  - rewrite fmap_app. eexists. reflexivity.
Qed.

Lemma merge_all_keys sys concepts t :
  (coding_key <$> Coding_rows t)
    `prefix_of` (coding_key <$> Coding_rows (merge_all sys concepts t)).
Proof.
  revert t. induction concepts as [|x rest IH]; intros t; simpl; [reflexivity|].
  etransitivity; [apply merge_Coding_keys|apply IH].
Qed.

(** X4: an import only adds rows.  Whatever the outcome, the Coding rows seen
    before the call are still there afterwards, in the same order and with the
    same id, system and code (only a display can change), followed by the new
    ones; the property definitions and the property values seen before are an
    unchanged prefix of those seen afterwards. *)
Theorem importCodeSystem_only_adds codeSystem concepts properties d :
  let d' := (importCodeSystem codeSystem concepts properties d).2 in
  (coding_key <$> Coding_rows (visible d))
    `prefix_of` (coding_key <$> Coding_rows (visible d'))
  ∧ CodeSystem_Property_rows (visible d) `prefix_of` CodeSystem_Property_rows (visible d')
  ∧ Coding_Property_rows (visible d) `prefix_of` Coding_Property_rows (visible d').
Proof.
  cbv zeta. split.
  - rewrite importCodeSystem_Coding_rows. apply merge_all_keys.
  - rewrite importCodeSystem_eq.
    destruct (processProperties_nocache _ _ _) as [r d1] eqn:E.
    apply processProperties_nocache_frame in E as ((_ & Hp & Hv) & _).
    cbn [visible pending] in Hp, Hv.
    destruct (merge_all_other (cs_id codeSystem) (default [] concepts) (visible d))
      as (Hp0 & Hv0 & _).
    rewrite Hp0 in Hp. rewrite Hv0 in Hv.
    destruct r as [[]|e]; split; assumption.
Qed.

(** ** Displays: the last concept of a code wins *)

Lemma batch_display_snoc c concepts x :
  batch_display c (concepts ++ [x])
  = if String.eqb (concept_code x) c then Some (concept_display x)
    else batch_display c concepts.
Proof. unfold batch_display. rewrite fold_left_app. reflexivity. Qed.

Lemma merge_all_display sys c s concepts t :
  display_of sys c (merge_all s concepts t)
  = if String.eqb s sys
    then match batch_display c concepts with
         | Some disp => Some disp
         | None => display_of sys c t
         end
    else display_of sys c t.
Proof.
  induction concepts as [|x rest IH] using rev_ind.
  - simpl. destruct (String.eqb s sys); reflexivity.
  - rewrite merge_all_snoc, display_of_merge, batch_display_snoc, IH.
    destruct (String.eqb s sys); simpl; [|reflexivity].
    destruct (String.eqb (concept_code x) c); reflexivity.
Qed.

(** X5: what an import does to the display of a code.  Whatever the outcome,
    a code of the CodeSystem that the batch names is stored afterwards with the
    display of the last concept of the batch that has this code (none when
    that concept has no display); every other code, and every code of another
    CodeSystem, is present or absent as before, with the display it had. *)
Theorem importCodeSystem_display codeSystem concepts properties d sys c :
  display_of sys c (visible (importCodeSystem codeSystem concepts properties d).2)
  = if String.eqb (cs_id codeSystem) sys
    then match batch_display c (default [] concepts) with
         | Some disp => Some disp
         | None => display_of sys c (visible d)
         end
    else display_of sys c (visible d).
Proof.
  unfold display_of at 1. rewrite importCodeSystem_Coding_rows.
  apply merge_all_display.
Qed.

(** ** Unique keys *)

Lemma filter_map_length {A} (p : A → bool) (f : A → A) (l : list A) :
  (∀ x, p (f x) = p x) → length (List.filter p (map f l)) = length (List.filter p l).
Proof.
  intros H. induction l as [|x l IH]; simpl; [reflexivity|].
  rewrite H. destruct (p x); simpl; congruence.
Qed.

Lemma existsb_false_filter {A} (p : A → bool) (l : list A) :
  existsb p l = false → List.filter p l = [].
Proof.
  induction l as [|x l IH]; simpl; [reflexivity|].
  destruct (p x); simpl; [discriminate|exact IH].
Qed.

Lemma merge_Coding_count s k disp t sys c :
  (count_codings sys c t <= 1)%nat
  → (count_codings sys c (merge_Coding s k disp t) <= 1)%nat.
Proof.
  unfold count_codings, merge_Coding.
  destruct (existsb _ _) eqn:Hex; simpl.
  - rewrite filter_map_length; [auto|]. intros r. unfold set_display.
    destruct (coding_matches s k r); reflexivity.
  - rewrite List.filter_app, length_app. simpl.
    destruct (coding_matches sys c _) eqn:Hm; simpl; [|lia].
    apply coding_matches_eq in Hm as [Hs Hk]. simpl in Hs, Hk. subst sys c.
    rewrite (existsb_false_filter _ _ Hex). simpl. lia.
Qed.

Lemma merge_all_count s concepts t sys c :
  (count_codings sys c t <= 1)%nat
  → (count_codings sys c (merge_all s concepts t) <= 1)%nat.
Proof.
  revert t. induction concepts as [|x rest IH]; intros t H; [exact H|].
  simpl. apply IH, merge_Coding_count, H.
Qed.

Lemma cp_conflicts_key k r :
  cp_conflicts k r = true
  → cp_conflicts k = cp_conflicts (mkCodingPropertyRow (cp_coding r) (cp_property r)
                                     (cp_value r) None).
Proof.
  unfold cp_conflicts. intros H.
  apply andb_true_iff in H as [H H3]. apply andb_true_iff in H as [H1 H2].
  apply Z.eqb_eq in H1, H2. apply String.eqb_eq in H3. simpl.
  rewrite H1, H2, H3. reflexivity.
Qed.

Lemma ignore_Coding_Property_count row t codingId propId v :
  (count_values codingId propId v t <= 1)%nat
  → (count_values codingId propId v (ignore_Coding_Property row t) <= 1)%nat.
Proof.
  unfold count_values, ignore_Coding_Property.
  destruct (existsb _ _) eqn:Hex; [auto|]. simpl.
  rewrite List.filter_app, length_app. simpl.
  destruct (cp_conflicts _ row) eqn:Hm; simpl; [|lia].
  rewrite (cp_conflicts_key _ _ Hm).
  change (cp_conflicts (mkCodingPropertyRow (cp_coding row) (cp_property row)
                          (cp_value row) None))
    with (cp_conflicts row).
  rewrite (existsb_false_filter _ _ Hex). simpl. lia.
Qed.

Lemma processProperties_nocache_count_values ps codeSystem d r d' codingId propId v :
  processProperties_nocache ps codeSystem d = (r, d')
  → (count_values codingId propId v (visible d) <= 1)%nat
  → (count_values codingId propId v (visible d') <= 1)%nat.
Proof.
  revert d. induction ps as [|imported rest IH]; intros d.
  - intros [= _ <-]. auto.
  - rewrite processProperties_nocache_cons, processProperty_nocache_eq.
    destruct (coding_lookup _ _ _); [|intros [= _ <-]; auto].
    destruct (resolveProperty _ _ d) as [[[pid isRel]|e] d0] eqn:E.
    + intros H Hc. eapply IH; [exact H|]. rewrite visible_db_write.
      apply ignore_Coding_Property_count. unfold count_values in *.
      rewrite (resolveProperty_values _ _ _ _ _ E). exact Hc.
    + intros [= _ <-] Hc. unfold count_values in *.
      rewrite (resolveProperty_values _ _ _ _ _ E). exact Hc.
Qed.

(** X6: an import keeps the unique keys of the three tables by itself.
    Whatever the outcome, a key that at most one row had before the call is the
    key of at most one row afterwards: [(system, code)] in Coding and in
    CodeSystem_Property, [(coding, property, value)] in Coding_Property. *)
Theorem importCodeSystem_keeps_unique_keys codeSystem concepts properties d :
  let d' := (importCodeSystem codeSystem concepts properties d).2 in
  (∀ sys c, (count_codings sys c (visible d) <= 1)%nat
            → (count_codings sys c (visible d') <= 1)%nat)
  ∧ (∀ sys c, (count_definitions sys c (visible d) <= 1)%nat
              → (count_definitions sys c (visible d') <= 1)%nat)
  ∧ (∀ codingId propId v, (count_values codingId propId v (visible d) <= 1)%nat
                          → (count_values codingId propId v (visible d') <= 1)%nat).
Proof.
  cbv zeta. split; [|split].
  - intros sys c H. unfold count_codings. rewrite importCodeSystem_Coding_rows.
    apply (merge_all_count _ _ _ _ _ H).
  - intros sys c H.
    destruct (importCodeSystem codeSystem concepts properties d) as [r d'] eqn:E.
    eapply importCodeSystem_count_le; eassumption.
  - intros codingId propId v H. rewrite importCodeSystem_eq.
    destruct (processProperties_nocache _ _ _) as [r d1] eqn:E.
    assert (H1 : (count_values codingId propId v (visible d1) <= 1)%nat).
    { eapply processProperties_nocache_count_values; [exact E|].
      unfold count_values in *. cbn [visible pending].
      destruct (merge_all_other (cs_id codeSystem) (default [] concepts) (visible d))
        as (_ & -> & _). exact H. }
    destruct r as [[]|e]; exact H1.
Qed.

Lemma importCodeSystem_keeps_unique_keys_witness :
  (count_codings "cs-1" "A"
     (visible (importCodeSystem ex_cs
                 (Some [mkCoding "A" None; mkCoding "A" (Some "a")]) None
                 empty_db).2) <= 1)%nat.
Proof.
  apply (proj1 (importCodeSystem_keeps_unique_keys ex_cs
                  (Some [mkCoding "A" None; mkCoding "A" (Some "a")]) None empty_db)).
  vm_compute. lia.
Defined.

(** ** Ids *)

Lemma coding_ids_ok_merge sys c disp t :
  coding_ids_ok t → coding_ids_ok (merge_Coding sys c disp t).
Proof.
  intros [Hnd Hlt]. unfold coding_ids_ok, merge_Coding.
  destruct (existsb _ _); simpl.
  - split.
    + replace (coding_id <$> map (set_display sys c disp) (Coding_rows t))
        with (coding_id <$> Coding_rows t); [exact Hnd|].
      rewrite <- list_fmap_compose. apply list_fmap_ext.
      intros i r _. simpl. symmetry. apply set_display_id.
    + apply Forall_map. eapply Forall_impl; [exact Hlt|]. simpl.
      intros r Hr. rewrite set_display_id. exact Hr.
  - split.
    + rewrite fmap_app. apply NoDup_app. split; [exact Hnd|]. split.
      * intros i Hi Hi'. simpl in Hi'. apply list_elem_of_singleton in Hi'. subst i.
        apply list_elem_of_fmap in Hi as (r & Hr & Hin).
        rewrite Forall_forall in Hlt. specialize (Hlt r Hin). lia.
      * simpl. apply NoDup_singleton.
    + apply Forall_app. split.
      * eapply Forall_impl; [exact Hlt|]. simpl. intros; lia.
      * constructor; [simpl; lia|constructor].
Qed.

Lemma coding_ids_ok_merge_all sys concepts t :
  coding_ids_ok t → coding_ids_ok (merge_all sys concepts t).
Proof.
  revert t. induction concepts as [|x rest IH]; intros t Hok; [exact Hok|].
  simpl. apply IH, coding_ids_ok_merge, Hok.
Qed.

Lemma processProperties_nocache_Coding_seq ps codeSystem d r d' :
  processProperties_nocache ps codeSystem d = (r, d')
  → Coding_seq (visible d') = Coding_seq (visible d).
Proof.
  revert d. induction ps as [|imported rest IH]; intros d.
  - intros [= _ <-]. reflexivity.
  - rewrite processProperties_nocache_cons, processProperty_nocache_eq.
    destruct (coding_lookup _ _ _); [|intros [= _ <-]; reflexivity].
    assert (Hres : ∀ x d0, resolveProperty codeSystem (ip_property imported) d = (x, d0)
                           → Coding_seq (visible d0) = Coding_seq (visible d)).
    { intros x d0. rewrite resolveProperty_eq.
      destruct (property_definition _ _); [|intros [= _ <-]; reflexivity].
      destruct (property_lookup _ _ _); intros [= _ <-]; [reflexivity|].
      rewrite visible_db_write. reflexivity. }
    destruct (resolveProperty _ _ d) as [[[pid isRel]|e] d0] eqn:E.
    + intros H. rewrite (IH _ H), visible_db_write, <- (Hres _ _ eq_refl).
      unfold ignore_Coding_Property. destruct (existsb _ _); reflexivity.
    + intros [= _ <-]. apply (Hres _ _ eq_refl).
Qed.

(** X7: an import keeps the ids server-assigned.  Whatever the outcome, when
    before the call the Coding ids are positive, pairwise distinct and below
    the Coding sequence, and the property-definition ids pairwise distinct and
    below their sequence, the same holds afterwards: no id is handed out
    twice and no row changes its id. *)
Theorem importCodeSystem_keeps_ids codeSystem concepts properties d
  (Hok : tables_ok (visible d)) (Hids : coding_ids_ok (visible d)) :
  tables_ok (visible (importCodeSystem codeSystem concepts properties d).2)
  ∧ coding_ids_ok (visible (importCodeSystem codeSystem concepts properties d).2).
Proof.
  split; [apply importCodeSystem_tables_ok, Hok|].
  pose proof (coding_ids_ok_merge_all (cs_id codeSystem) (default [] concepts)
                (visible d) Hids) as H0.
  unfold coding_ids_ok in *. rewrite importCodeSystem_Coding_rows.
  rewrite importCodeSystem_eq.
  destruct (processProperties_nocache _ _ _) as [r d1] eqn:E.
  apply processProperties_nocache_Coding_seq in E. cbn [visible pending] in E.
  assert (Hseq : Coding_seq (visible (match r with
                                      | Ok _ => (Ok tt, mkDb (visible d1) None)
                                      | Throw e => (Throw e, d1)
                                      end).2)
                 = Coding_seq (merge_all (cs_id codeSystem) (default [] concepts)
                                 (visible d)))
    by (destruct r as [[]|e]; exact E).
  rewrite Hseq. exact H0.
Qed.

Lemma importCodeSystem_keeps_ids_witness :
  tables_ok (visible (importCodeSystem ex_cs (Some [mkCoding "A" None])
                        (Some [mkImportedProperty "A" "parent" "A"]) empty_db).2)
  ∧ coding_ids_ok (visible (importCodeSystem ex_cs (Some [mkCoding "A" None])
                              (Some [mkImportedProperty "A" "parent" "A"]) empty_db).2).
Proof.
  apply importCodeSystem_keeps_ids.
  - unfold tables_ok. simpl. repeat split; try constructor; lia.
  - unfold coding_ids_ok. simpl. split; constructor.
Defined.

(** ** The target of a new value row *)

(** X8: the target of a value row written by a successful import into a
    database with server-assigned ids.  For every entry of the property batch
    a row is stored for its coding, property and value; when no such row was
    stored before the import, its target is the id of the Coding row whose code
    is the entry's value if the property is a relationship (type ["code"]) and
    such a row exists, and the row has no target otherwise: not for an
    attribute property, and not for a relationship to a code that is not
    stored. *)
Theorem importCodeSystem_target codeSystem concepts ps d d' imported prop
  (Himport : importCodeSystem codeSystem concepts (Some ps) d = (Ok tt, d'))
  (Hids : tables_ok (visible d))
  (Hentry : imported ∈ ps)
  (Hdefinition : property_definition codeSystem (ip_property imported) = Ok prop) :
  ∃ codingId propId row,
    coding_lookup (cs_id codeSystem) (ip_code imported) (committed d') = Some codingId
    ∧ property_lookup (cs_id codeSystem) (ip_property imported) (committed d')
      = Some propId
    ∧ value_row codingId propId (ip_value imported) (committed d') = Some row
    ∧ (value_row codingId propId (ip_value imported) (visible d) = None
       → cp_target row
         = if String.eqb (prop_type prop) "code"
           then coding_lookup (cs_id codeSystem) (ip_value imported) (committed d')
           else None).
Proof.
  apply importCodeSystem_Ok in Himport as (d1 & Hrun & ->).
  change (default [] (Some ps)) with ps in Hrun. cbn [committed].
  set (t0 := merge_all (cs_id codeSystem) (default [] concepts) (visible d)) in *.
  assert (Hok0 : tables_ok t0) by apply tables_ok_merge_all, Hids.
  destruct (processProperties_nocache_row _ _ _ _ _ Hrun Hok0 Hentry)
    as (codingId & propId & row & Hc & Hl & Hrow & Hbuilt).
  cbn [visible pending] in Hbuilt.
  exists codingId, propId, row. repeat split; try assumption.
  intros Hnone.
  assert (Hnone0 : value_row codingId propId (ip_value imported) t0 = None).
  { unfold value_row in *. subst t0.
    destruct (merge_all_other (cs_id codeSystem) (default [] concepts) (visible d))
      as (_ & -> & _). exact Hnone. }
  specialize (Hbuilt Hnone0). unfold row_for in Hbuilt.
  rewrite Hc, Hdefinition, Hl in Hbuilt. injection Hbuilt as <-. reflexivity.
Qed.

Lemma importCodeSystem_target_witness :
  ∃ codingId propId row,
    coding_lookup "cs-1" "B"
      (mkTables [mkCodingRow 1 "cs-1" "B" None]
         [mkPropertyRow 1 "cs-1" "parent" "code" (Some parentProperty) None]
         [mkCodingPropertyRow 1 1 "Z" None] 2 2) = Some codingId
    ∧ property_lookup "cs-1" "parent"
        (mkTables [mkCodingRow 1 "cs-1" "B" None]
           [mkPropertyRow 1 "cs-1" "parent" "code" (Some parentProperty) None]
           [mkCodingPropertyRow 1 1 "Z" None] 2 2) = Some propId
    ∧ value_row codingId propId "Z"
        (mkTables [mkCodingRow 1 "cs-1" "B" None]
           [mkPropertyRow 1 "cs-1" "parent" "code" (Some parentProperty) None]
           [mkCodingPropertyRow 1 1 "Z" None] 2 2) = Some row
    ∧ (value_row codingId propId "Z" (visible empty_db) = None
       → cp_target row
         = if String.eqb "code" "code"
           then coding_lookup "cs-1" "Z"
                  (mkTables [mkCodingRow 1 "cs-1" "B" None]
                     [mkPropertyRow 1 "cs-1" "parent" "code" (Some parentProperty) None]
                     [mkCodingPropertyRow 1 1 "Z" None] 2 2)
           else None).
Proof.
  exact (importCodeSystem_target ex_cs (Some [mkCoding "B" None])
           [mkImportedProperty "B" "parent" "Z"] empty_db _
           (mkImportedProperty "B" "parent" "Z")
           (mkCodeSystemProperty "parent" (Some parentProperty) "code" None)
           eq_refl tables_ok_empty (list_elem_of_here _ _) eq_refl).
Defined.

(** ** More on the resolver *)

Lemma implicit_parent_false codeSystem c :
  implicit_parent codeSystem c = false
  ↔ hierarchyMeaning codeSystem ≠ Some c
    ∧ ¬ (c = "parent"
         ∧ (hierarchyMeaning codeSystem = None ∨ hierarchyMeaning codeSystem = Some "")).
Proof.
  unfold implicit_parent, truthy_string.
  destruct (hierarchyMeaning codeSystem) as [h|].
  - destruct (String.eqb_spec c h) as [->|Hne]; simpl.
    + split; [discriminate|]. intros [H _]. congruence.
    + destruct (String.eqb_spec c "parent") as [->|Hp]; simpl.
      * destruct (String.eqb_spec h "") as [->|Hh]; simpl.
        -- split; [discriminate|]. intros [_ H]. exfalso. apply H. auto.
        -- split; [|reflexivity]. intros _. split; [congruence|].
           intros [_ [H|H]]; congruence.
      * split; [|reflexivity]. intros _. split; [congruence|]. intros [H _].
        contradiction.
  - simpl. destruct (String.eqb_spec c "parent") as [->|Hp]; simpl.
    + split; [discriminate|]. intros [_ H]. exfalso. apply H. auto.
    + split; [|reflexivity]. intros _. split; [discriminate|]. intros [H _].
      contradiction.
Qed.

(** X9: when [resolveProperty] fails.  It throws exactly when the CodeSystem
    does not declare the code, the code is not the CodeSystem's
    [hierarchyMeaning], and it is not ["parent"] with the [hierarchyMeaning]
    unset or empty; the outcome thrown is then "Unknown property: <code>" and
    the database is left as it is. *)
Theorem resolveProperty_fails_iff codeSystem c d :
  ((∃ e, (resolveProperty codeSystem c d).1 = Throw e)
   ↔ find_declared codeSystem c = None
     ∧ hierarchyMeaning codeSystem ≠ Some c
     ∧ ¬ (c = "parent"
          ∧ (hierarchyMeaning codeSystem = None
             ∨ hierarchyMeaning codeSystem = Some "")))
  ∧ (∀ e, (resolveProperty codeSystem c d).1 = Throw e →
          resolveProperty codeSystem c d
          = (Throw (badRequest ("Unknown property: " +:+ c)), d)).
Proof.
  rewrite <- implicit_parent_false.
  rewrite resolveProperty_eq. unfold property_definition.
  destruct (find_declared codeSystem c) as [prop|].
  - split; [split|].
    + intros [e He]. destruct (property_lookup _ _ _); discriminate.
    + intros [H _]. discriminate.
    + intros e He. destruct (property_lookup _ _ _); discriminate.
  - destruct (implicit_parent codeSystem c).
    + split; [split|].
      * intros [e He]. destruct (property_lookup _ _ _); discriminate.
      * intros [_ H]. discriminate.
      * intros e He. destruct (property_lookup _ _ _); discriminate.
    + split; [split; eauto|]. intros e _. reflexivity.
Qed.

Lemma resolveProperty_fails_iff_witness :
  resolveProperty ex_cs "severity" empty_db
  = (Throw (badRequest "Unknown property: severity"), empty_db)
  ∧ ∃ e, (resolveProperty (mkCodeSystem "cs-1" "http://ex/cs" (Some "isa") None)
            "parent" empty_db).1 = Throw e.
Proof.
  split.
  - exact (proj2 (resolveProperty_fails_iff ex_cs "severity" empty_db)
             (badRequest "Unknown property: severity") eq_refl).
  - apply (proj1 (resolveProperty_fails_iff
                    (mkCodeSystem "cs-1" "http://ex/cs" (Some "isa") None)
                    "parent" empty_db)).
    split; [reflexivity|]. split; [discriminate|].
    intros [_ [H|H]]; discriminate.
Defined.

(** X10: a declared property wins over the implicit parent.  When the
    CodeSystem declares the code, also the code ["parent"] or the code named
    by [hierarchyMeaning], the resolver succeeds, classifies it by the
    declared type alone, and a definition row it creates carries the declared
    type, uri and description. *)
Theorem resolveProperty_declared codeSystem c d prop
  (Hdeclared : find_declared codeSystem c = Some prop) :
  ∃ propId d',
    resolveProperty codeSystem c d
    = (Ok (propId, String.eqb (prop_type prop) "code"), d')
    ∧ property_lookup (cs_id codeSystem) c (visible d') = Some propId
    ∧ (property_lookup (cs_id codeSystem) c (visible d) = None →
       CodeSystem_Property_rows (visible d')
       = CodeSystem_Property_rows (visible d)
           ++ [mkPropertyRow propId (cs_id codeSystem) c (prop_type prop)
                 (prop_uri prop) (prop_description prop)])
    ∧ (is_Some (property_lookup (cs_id codeSystem) c (visible d)) → d' = d).
Proof.
  assert (Hdef : property_definition codeSystem c = Ok prop)
    by (unfold property_definition; rewrite Hdeclared; reflexivity).
  destruct (resolveProperty codeSystem c d) as [[[propId isRel]|e] d'] eqn:E.
  - pose proof E as E'.
    apply resolveProperty_Ok in E' as (_ & (prop' & Hp & Hrel & Hl) & _).
    rewrite Hdef in Hp. injection Hp as <-. simpl in Hrel, Hl. subst isRel.
    exists propId, d'. split; [reflexivity|]. split; [exact Hl|]. split.
    + intros Hnone. rewrite resolveProperty_eq, Hdef, Hnone in E.
      injection E as <- <-. rewrite visible_db_write. reflexivity.
    + intros [known Hknown]. rewrite resolveProperty_eq, Hdef, Hknown in E.
      injection E as _ <-. reflexivity.
  - apply resolveProperty_Throw in E as [_ E]. congruence.
Qed.

Lemma resolveProperty_declared_witness :
  ∃ propId d',
    resolveProperty
      (mkCodeSystem "cs-1" "http://ex/cs" None
         (Some [mkCodeSystemProperty "parent" None "string" (Some "a label")]))
      "parent" empty_db
    = (Ok (propId, false), d')
    ∧ property_lookup "cs-1" "parent" (visible d') = Some propId
    ∧ (property_lookup "cs-1" "parent" (visible empty_db) = None →
       CodeSystem_Property_rows (visible d')
       = [mkPropertyRow propId "cs-1" "parent" "string" None (Some "a label")])
    ∧ (is_Some (property_lookup "cs-1" "parent" (visible empty_db)) → d' = empty_db).
Proof.
  exact (resolveProperty_declared
           (mkCodeSystem "cs-1" "http://ex/cs" None
              (Some [mkCodeSystemProperty "parent" None "string" (Some "a label")]))
           "parent" empty_db
           (mkCodeSystemProperty "parent" None "string" (Some "a label")) eq_refl).
Defined.

(** X11: resolving is stable.  After [resolveProperty] has returned an id for
    a code, looking the code up gives this id, and resolving the code again,
    then or after any later writes of an import, returns the same id and
    classification and writes nothing. *)
Theorem resolveProperty_stable codeSystem c d r d'
  (Hresolved : resolveProperty codeSystem c d = (Ok r, d')) :
  property_lookup (cs_id codeSystem) c (visible d') = Some r.1
  ∧ resolveProperty codeSystem c d' = (Ok r, d')
  ∧ (∀ ps r1 d1, processProperties ps codeSystem d' = (r1, d1)
                 → resolveProperty codeSystem c d1 = (Ok r, d1)).
Proof.
  apply resolveProperty_Ok in Hresolved as (_ & Hres & _).
  split; [destruct Hres as (prop & _ & _ & Hl); exact Hl|].
  split; [apply resolved_in_resolveProperty, Hres|].
  intros ps r1 d1 Hrun. rewrite processProperties_eq_nocache in Hrun.
  apply processProperties_nocache_frame in Hrun as [Hext _].
  apply resolved_in_resolveProperty. eapply resolved_in_extends; eassumption.
Qed.

Lemma resolveProperty_stable_witness :
  resolveProperty ex_cs "parent"
    (mkDb (mkTables []
             [mkPropertyRow 1 "cs-1" "parent" "code" (Some parentProperty) None] [] 1 2)
       None)
  = (Ok (1, true),
     mkDb (mkTables []
             [mkPropertyRow 1 "cs-1" "parent" "code" (Some parentProperty) None] [] 1 2)
       None).
Proof.
  exact (proj1 (proj2 (resolveProperty_stable ex_cs "parent" empty_db (1, true) _
                         eq_refl))).
Defined.

(** * The request handler *)

Lemma importCodeSystem_again codeSystem concepts properties d r d' :
  importCodeSystem codeSystem concepts properties d = (r, d')
  → importCodeSystem codeSystem concepts properties d' = (r, d').
Proof.
  rewrite (importCodeSystem_eq _ _ _ d).
  destruct (processProperties_nocache _ _ _) as [r1 d1] eqn:E.
  pose proof (processProperties_nocache_frame _ _ _ _ _ E) as ((Hrows & _) & Hd1).
  cbn [visible pending] in Hrows.
  assert (Hfix : merge_all (cs_id codeSystem) (default [] concepts) (visible d1)
                 = visible d1)
    by (apply (merge_all_again _ _ (visible d)); exact Hrows).
  destruct r1 as [[]|e]; intros [= <- <-]; rewrite importCodeSystem_eq.
  - change (visible (mkDb (visible d1) None)) with (visible d1).
    change (committed (mkDb (visible d1) None)) with (visible d1).
    rewrite Hfix, stored_processProperties_nocache; [reflexivity|].
    exact (processProperties_nocache_stored _ _ _ _ E).
  - rewrite Hfix.
    assert (Hsame : mkDb (committed d1) (Some (visible d1)) = d1).
    { rewrite Hd1. unfold db_put, db_write, visible. reflexivity. }
    rewrite Hsame, (processProperties_nocache_again _ _ _ _ _ E). reflexivity.
Qed.

(** X12: the answer of the handler.  When the search finds no CodeSystem, or
    more than one, for the url, the handler sends the bad-request outcome
    "No CodeSystem found with URL <url>", respectively "Ambiguous code system
    URI: <url>", and runs no statement on the database.  When it finds exactly
    one, it sends that CodeSystem if every property entry can be written, and
    otherwise the outcome of the first entry that cannot. *)
Theorem codeSystemImportHandler_response searchResources params d :
  match searchResources (param_system params) with
  | [] =>
      codeSystemImportHandler searchResources params d
      = (sendOutcome
           (badRequest ("No CodeSystem found with URL " +:+ param_system params)), d)
  | [codeSystem] =>
      (codeSystemImportHandler searchResources params d).1
      = match first_error codeSystem
                (merge_all (cs_id codeSystem) (default [] (param_concept params))
                   (visible d))
                (default [] (param_property params)) with
        | None => sendOutputParameters codeSystem
        | Some e => sendOutcome e
        end
  | _ :: _ :: _ =>
      codeSystemImportHandler searchResources params d
      = (sendOutcome
           (badRequest ("Ambiguous code system URI: " +:+ param_system params)), d)
  end.
Proof.
  unfold codeSystemImportHandler.
  destruct (searchResources (param_system params)) as [|codeSystem [|other rest]];
    try reflexivity.
  pose proof (importCodeSystem_outcome codeSystem (param_concept params)
                (param_property params) d) as H.
  destruct (importCodeSystem _ _ _ d) as [[[]|e] d'];
    simpl in H; destruct (first_error _ _ _); try discriminate; try reflexivity.
  injection H as ->. reflexivity.
Qed.

(** X13: sending a request again.  For every search, every parameters and
    every state of the database, the handler answers a repeated request as it
    answered the first and leaves the database as the first left it. *)
Theorem codeSystemImportHandler_again searchResources params d :
  codeSystemImportHandler searchResources params
    (codeSystemImportHandler searchResources params d).2
  = codeSystemImportHandler searchResources params d.
Proof.
  unfold codeSystemImportHandler.
  destruct (searchResources (param_system params)) as [|codeSystem [|other rest]];
    try reflexivity.
  destruct (importCodeSystem _ _ _ d) as [r d'] eqn:E.
  apply importCodeSystem_again in E.
  destruct r as [[]|e]; simpl; rewrite E; reflexivity.
Qed.

(** * [streamToString] *)

Lemma stream_listener_settled utf8 events chunks p :
  p ≠ Pending → (fold_left (stream_listener utf8) events (chunks, p)).2 = p.
Proof.
  revert chunks. induction events as [|ev events IH]; intros chunks Hp; [reflexivity|].
  simpl. destruct ev; simpl; try (apply IH; exact Hp);
    destruct p; try contradiction; simpl; apply IH; discriminate.
Qed.

Lemma stream_listener_data utf8 chunks events acc p :
  fold_left (stream_listener utf8) ((on_data <$> chunks) ++ events) (acc, p)
  = fold_left (stream_listener utf8) events (acc ++ chunks, p).
Proof.
  revert acc. induction chunks as [|chunk chunks IH]; intros acc; simpl.
  - rewrite app_nil_r. reflexivity.
  - rewrite IH, <- app_assoc. reflexivity.
Qed.

(** X14: [streamToString] resolves to the decoding of all the bytes.  When the
    stream emits chunks and then ends, the promise resolves to the UTF-8
    decoding of the concatenation of the chunks, whatever the stream emits
    afterwards; so two streams that cut the same bytes into different chunks
    give the same string. *)
Theorem streamToString_resolves utf8 chunks later :
  streamToString utf8 ((on_data <$> chunks) ++ on_end :: later)
  = Resolved (utf8 (concat chunks))
  ∧ ∀ chunks' later',
      concat chunks' = concat chunks →
      streamToString utf8 ((on_data <$> chunks') ++ on_end :: later')
      = streamToString utf8 ((on_data <$> chunks) ++ on_end :: later).
Proof.
  assert (H : ∀ cs l, streamToString utf8 ((on_data <$> cs) ++ on_end :: l)
                      = Resolved (utf8 (concat cs))).
  { intros cs l. unfold streamToString. rewrite stream_listener_data. simpl.
    apply stream_listener_settled. discriminate. }
  split; [apply H|]. intros chunks' later' Hc. rewrite !H, Hc. reflexivity.
Qed.

Lemma streamToString_resolves_witness :
  streamToString (fun bytes => string_of_list_byte bytes)
    [on_data ["f"%byte]; on_data ["o"%byte; "o"%byte]; on_end]
  = streamToString (fun bytes => string_of_list_byte bytes)
      [on_data ["f"%byte; "o"%byte]; on_data []; on_data ["o"%byte]; on_end;
       on_error "late"].
Proof.
  exact (proj2 (streamToString_resolves (fun bytes => string_of_list_byte bytes)
                  [["f"%byte; "o"%byte]; []; ["o"%byte]] [on_error "late"])
           [["f"%byte]; ["o"%byte; "o"%byte]] [] eq_refl).
Defined.

(** X15: [streamToString] rejects on an error and never settles twice.  When
    the stream emits an error before it ends, the promise is rejected with
    that error, whatever the stream emits afterwards, also an end; and as long
    as the stream has emitted only chunks the promise is pending. *)
Theorem streamToString_rejects utf8 chunks err later :
  streamToString utf8 ((on_data <$> chunks) ++ on_error err :: later) = Rejected err
  ∧ streamToString utf8 (on_data <$> chunks) = Pending.
Proof.
  split.
  - unfold streamToString. rewrite stream_listener_data. simpl.
    apply stream_listener_settled. discriminate.
  - unfold streamToString.
    rewrite <- (app_nil_r (on_data <$> chunks)), stream_listener_data. reflexivity.
Qed.

(** * The ValueSet autocomplete *)

Lemma same_code_eq a b : same_code a b = true ↔ a = b.
Proof.
  destruct a as [x|], b as [y|]; simpl; try (split; [discriminate|congruence]).
  - rewrite String.eqb_eq. split; congruence.
  - split; reflexivity.
Qed.

Lemma push_new_cases newData x :
  (push_new newData x = newData ++ [x]
   ∧ truthy_string (vs_code x) = true
   ∧ vs_code x ∉ vs_code <$> newData)
  ∨ (push_new newData x = newData
     ∧ (truthy_string (vs_code x) = false ∨ vs_code x ∈ vs_code <$> newData)).
Proof.
  unfold push_new. destruct (truthy_string (vs_code x)) eqn:Ht; simpl; [|auto].
  destruct (existsb _ newData) eqn:Hex; simpl.
  - right. split; [reflexivity|right].
    apply existsb_exists in Hex as (item & Hin & Hsame).
    apply same_code_eq in Hsame. rewrite <- Hsame.
    apply list_elem_of_fmap. exists item. split; [reflexivity|apply list_elem_of_In, Hin].
  - left. repeat split. intros Hin.
    apply list_elem_of_fmap in Hin as (item & Hcode & Hin).
    assert (existsb (fun item => same_code (vs_code item) (vs_code x)) newData = true).
    { apply existsb_exists. exists item. split; [apply list_elem_of_In, Hin|].
      apply same_code_eq. congruence. }
    congruence.
Qed.

(** The options collected so far have non-empty, pairwise distinct codes. *)
Lemma fold_push_new_codes elements newData :
  NoDup (vs_code <$> newData)
  → Forall (fun item => truthy_string (vs_code item) = true) newData
  → NoDup (vs_code <$> fold_left push_new elements newData)
    ∧ Forall (fun item => truthy_string (vs_code item) = true)
        (fold_left push_new elements newData).
Proof.
  revert newData. induction elements as [|x rest IH]; intros newData Hnd Hall;
    [auto|].
  simpl. destruct (push_new_cases newData x) as [(-> & Ht & Hnew)|(-> & _)];
    [|apply IH; assumption].
  apply IH.
  - rewrite fmap_app. apply NoDup_app. split; [exact Hnd|]. split.
    + intros c Hc Hc'. simpl in Hc'. apply list_elem_of_singleton in Hc'. subst c.
      contradiction.
    + simpl. apply NoDup_singleton.
  - apply Forall_app. split; [exact Hall|]. constructor; [exact Ht|constructor].
Qed.

Lemma truthy_string_Some o : truthy_string o = true → ∃ s, o = Some s ∧ s ≠ "".
Proof.
  destruct o as [s|]; simpl; [|discriminate].
  destruct (String.eqb_spec s ""); [discriminate|]. eauto.
Qed.

Lemma NoDup_keys stringify (l : list ValueSetExpansionContains) :
  NoDup (vs_code <$> l)
  → Forall (fun item => truthy_string (vs_code item) = true) l
  → NoDup (toKey stringify <$> l).
Proof.
  induction l as [|x l IH]; intros Hnd Hall; [constructor|].
  rewrite fmap_cons in Hnd. apply NoDup_cons in Hnd as [Hx Hnd].
  apply Forall_cons in Hall as [Htx Hall].
  rewrite fmap_cons. apply NoDup_cons. split; [|apply IH; assumption].
  intros Hin. apply Hx.
  apply list_elem_of_fmap in Hin as (y & Hkey & Hy).
  apply list_elem_of_fmap. exists y. split; [|exact Hy].
  rewrite Forall_forall in Hall. specialize (Hall y Hy).
  apply truthy_string_Some in Htx as (a & Ha & _).
  apply truthy_string_Some in Hall as (b & Hb & _).
  unfold toKey in Hkey. rewrite Ha, Hb in Hkey. congruence.
Qed.

(** X16: what [loadValues] settles to.  Without a binding (undefined or
    empty) it resolves to no options, whatever the server would answer.  With a
    binding, it is rejected with a TypeError if and only if the expanded
    ValueSet has no [expansion] or no [expansion.contains]; when it resolves,
    the options all have a non-empty code and pairwise distinct keys. *)
Theorem loadValues_options stringify binding valueSetExpand input :
  (loadValues binding valueSetExpand input = TypeError
   ↔ ∃ url, binding = Some url ∧ url ≠ ""
            ∧ (expansion (valueSetExpand url input) = None
               ∨ expansion (valueSetExpand url input) = Some (mkExpansion None)))
  ∧ (binding = None ∨ binding = Some "" →
     loadValues binding valueSetExpand input = loaded [])
  ∧ (∀ newData,
       loadValues binding valueSetExpand input = loaded newData →
       NoDup (toKey stringify <$> newData)
       ∧ Forall (fun item => ∃ c, vs_code item = Some c ∧ c ≠ ""
                                  ∧ toKey stringify item = c) newData).
Proof.
  unfold loadValues. split; [|split].
  - destruct binding as [url|].
    + destruct (String.eqb_spec url "") as [->|Hurl].
      * split; [discriminate|]. intros (u & [= <-] & Hu & _). contradiction.
      * destruct (expansion (valueSetExpand url input)) as [[[elements|]]|] eqn:E.
        -- split; [discriminate|]. intros (u & [= <-] & _ & [H|H]).
           ++ rewrite E in H. discriminate.
           ++ rewrite E in H. discriminate.
        -- split; [|reflexivity]. intros _. exists url. rewrite E. auto.
        -- split; [|reflexivity]. intros _. exists url. rewrite E. auto.
    + split; [discriminate|]. intros (u & H & _). discriminate.
  - intros [-> | ->]; reflexivity.
  - intros newData Hloaded.
    assert (Hcodes : NoDup (vs_code <$> newData)
                     ∧ Forall (fun item => truthy_string (vs_code item) = true) newData).
    { destruct binding as [url|].
      - destruct (String.eqb url "").
        + injection Hloaded as <-. split; constructor.
        + destruct (expansion (valueSetExpand url input)) as [[[elements|]]|];
            try discriminate.
          injection Hloaded as <-.
          apply fold_push_new_codes; constructor.
      - injection Hloaded as <-. split; constructor. }
    destruct Hcodes as [Hnd Hall].
    split; [apply NoDup_keys; assumption|].
    eapply Forall_impl; [exact Hall|]. simpl. intros item Ht.
    apply truthy_string_Some in Ht as (c & Hc & Hne).
    exists c. unfold toKey. rewrite Hc. auto.
Qed.

Lemma fold_push_new_sublist elements newData :
  ∃ kept, fold_left push_new elements newData = newData ++ kept
          ∧ kept `sublist_of` elements.
Proof.
  revert newData. induction elements as [|x rest IH]; intros newData.
  - exists []. rewrite app_nil_r. split; [reflexivity|constructor].
  - simpl. destruct (push_new_cases newData x) as [(-> & _)|(-> & _)].
    + destruct (IH (newData ++ [x])) as (kept & -> & Hsub).
      exists (x :: kept). rewrite <- app_assoc. split; [reflexivity|].
      apply sublist_skip, Hsub.
    + destruct (IH newData) as (kept & -> & Hsub).
      exists kept. split; [reflexivity|]. apply sublist_cons, Hsub.
Qed.

Lemma fold_push_new_find c elements newData :
  c ≠ "" →
  find (fun item => same_code (vs_code item) (Some c)) (fold_left push_new elements newData)
  = match find (fun item => same_code (vs_code item) (Some c)) newData with
    | Some item => Some item
    | None => find (fun item => same_code (vs_code item) (Some c)) elements
    end.
Proof.
  intros Hc. revert newData. induction elements as [|x rest IH]; intros newData.
  - simpl. destruct (find _ newData); reflexivity.
  - simpl fold_left. rewrite IH. simpl find.
    destruct (push_new_cases newData x) as [(-> & _ & Hnew)|(-> & [Ht|Hin])].
    + destruct (find _ newData) as [item|] eqn:Hf.
      * rewrite (find_app_Some _ _ _ _ Hf). reflexivity.
      * rewrite (find_app_None _ _ _ Hf). simpl.
        destruct (same_code (vs_code x) (Some c)); reflexivity.
    + destruct (find _ newData); [reflexivity|].
      destruct (same_code (vs_code x) (Some c)) eqn:Hs; [|reflexivity].
      apply same_code_eq in Hs. rewrite Hs in Ht. simpl in Ht.
      destruct (String.eqb_spec c ""); [contradiction|discriminate].
    + destruct (find _ newData) as [item|] eqn:Hf; [reflexivity|].
      destruct (same_code (vs_code x) (Some c)) eqn:Hs; [|reflexivity].
      exfalso. apply list_elem_of_fmap in Hin as (item & Hcode & Hitem).
      pose proof (find_None_elem _ _ _ Hf Hitem) as Hfalse. simpl in Hfalse.
      rewrite <- Hcode, Hs in Hfalse. discriminate.
Qed.

(** X17: which elements [loadValues] keeps.  The options are elements of the
    expansion in the order of the expansion; no two options have the same
    code and no option has an empty or missing code, so an element whose code
    was seen before is dropped; and for every non-empty code of the expansion
    the option with this code is the first element of the expansion with it, so
    no code of the expansion is lost. *)
Theorem loadValues_first_of_each_code url valueSetExpand input valueSetElements
  (Hbinding : url ≠ "")
  (Hexpansion : expansion (valueSetExpand url input)
                = Some (mkExpansion (Some valueSetElements))) :
  ∃ newData,
    loadValues (Some url) valueSetExpand input = loaded newData
    ∧ newData `sublist_of` valueSetElements
    ∧ NoDup (vs_code <$> newData)
    ∧ Forall (fun item => ∃ c, vs_code item = Some c ∧ c ≠ "") newData
    ∧ ∀ c, c ≠ "" →
           find (fun item => same_code (vs_code item) (Some c)) newData
           = find (fun item => same_code (vs_code item) (Some c)) valueSetElements.
Proof.
  unfold loadValues. destruct (String.eqb_spec url ""); [contradiction|].
  rewrite Hexpansion. simpl. eexists. split; [reflexivity|].
  destruct (fold_push_new_codes valueSetElements [] (NoDup_nil_2) (Forall_nil_2 _))
    as [Hnd Hall].
  split; [|split; [exact Hnd|split]].
  - destruct (fold_push_new_sublist valueSetElements []) as (kept & -> & Hsub).
    exact Hsub.
  - eapply Forall_impl; [exact Hall|]. simpl. intros item Ht.
    apply truthy_string_Some in Ht. exact Ht.
  - intros c Hc. rewrite (fold_push_new_find c valueSetElements [] Hc). reflexivity.
Qed.

Lemma loadValues_first_of_each_code_witness :
  ∃ newData,
    loadValues (Some "http://ex/vs")
      (fun _ _ =>
         mkValueSet (Some (mkExpansion (Some
           [mkContains None (Some "a") (Some "first");
            mkContains None None (Some "no code");
            mkContains None (Some "a") (Some "second");
            mkContains None (Some "") None;
            mkContains None (Some "b") None])))) "x"
    = loaded newData
    ∧ newData `sublist_of`
        [mkContains None (Some "a") (Some "first");
         mkContains None None (Some "no code");
         mkContains None (Some "a") (Some "second");
         mkContains None (Some "") None;
         mkContains None (Some "b") None]
    ∧ NoDup (vs_code <$> newData)
    ∧ Forall (fun item => ∃ c, vs_code item = Some c ∧ c ≠ "") newData
    ∧ ∀ c, c ≠ "" →
           find (fun item => same_code (vs_code item) (Some c)) newData
           = find (fun item => same_code (vs_code item) (Some c))
               [mkContains None (Some "a") (Some "first");
                mkContains None None (Some "no code");
                mkContains None (Some "a") (Some "second");
                mkContains None (Some "") None;
                mkContains None (Some "b") None].
Proof.
  apply (loadValues_first_of_each_code "http://ex/vs"); [discriminate|reflexivity].
Defined.

Lemma fold_push_new_fixed elements newData :
  NoDup (vs_code <$> (newData ++ elements))
  → Forall (fun item => truthy_string (vs_code item) = true) elements
  → fold_left push_new elements newData = newData ++ elements.
Proof.
  revert newData. induction elements as [|x rest IH]; intros newData Hnd Hall.
  - rewrite app_nil_r. reflexivity.
  - apply Forall_cons in Hall as [Ht Hall]. simpl.
    destruct (push_new_cases newData x) as [(-> & _)|(_ & [Hf|Hin])].
    + rewrite IH; [rewrite <- app_assoc; reflexivity| |exact Hall].
      rewrite <- app_assoc. exact Hnd.
    + congruence.
    + exfalso. rewrite fmap_app, fmap_cons in Hnd.
      apply NoDup_app in Hnd as (_ & Hdisj & _).
      apply (Hdisj _ Hin). left.
Qed.

(** X18: the options of [loadValues] are a fixed point of it.  When
    [loadValues] has resolved to some options, a server that answers with
    exactly these options as its expansion makes [loadValues] resolve to the
    same options, in the same order: elements that passed the filter once pass
    it again. *)
Theorem loadValues_again url valueSetExpand valueSetExpand' input newData
  (Hbinding : url ≠ "")
  (Hloaded : loadValues (Some url) valueSetExpand input = loaded newData)
  (Hanswer : expansion (valueSetExpand' url input)
             = Some (mkExpansion (Some newData))) :
  loadValues (Some url) valueSetExpand' input = loaded newData.
Proof.
  unfold loadValues in *. destruct (String.eqb_spec url ""); [contradiction|].
  rewrite Hanswer. simpl. f_equal.
  destruct (expansion (valueSetExpand url input)) as [[[elements|]]|];
    try discriminate.
  injection Hloaded as <-.
  destruct (fold_push_new_codes elements [] (NoDup_nil_2) (Forall_nil_2 _))
    as [Hnd Hall].
  apply (fold_push_new_fixed _ []); assumption.
Qed.

Lemma loadValues_again_witness :
  loadValues (Some "http://ex/vs")
    (fun _ _ =>
       mkValueSet (Some (mkExpansion (Some
         [mkContains None (Some "a") (Some "first");
          mkContains None (Some "b") None])))) "x"
  = loaded [mkContains None (Some "a") (Some "first");
            mkContains None (Some "b") None].
Proof.
  apply (loadValues_again "http://ex/vs"
           (fun _ _ =>
              mkValueSet (Some (mkExpansion (Some
                [mkContains None (Some "a") (Some "first");
                 mkContains None None (Some "no code");
                 mkContains None (Some "a") (Some "second");
                 mkContains None (Some "b") None]))))).
  - discriminate.
  - reflexivity.
  - reflexivity.
Defined.

(** * A failing property batch *)

(** X19: where a failing property pass stops.  When the entries before an
    entry went through and the entry itself fails, the pass over the whole
    batch fails with the error of that entry and leaves the database as the
    entries before it left it: their rows are kept, the failing entry and the
    entries after it write nothing. *)
Theorem processProperties_stops_at_failure codeSystem done imported rest d d1 e d2
  (Hdone : processProperties done codeSystem d = (Ok tt, d1))
  (Hfails : processProperties [imported] codeSystem d1 = (Throw e, d2)) :
  processProperties (done ++ imported :: rest) codeSystem d = (Throw e, d1)
  ∧ d2 = d1
  ∧ Coding_Property_rows (visible d) `prefix_of` Coding_Property_rows (visible d1).
Proof.
  rewrite processProperties_eq_nocache in Hdone, Hfails.
  rewrite processProperties_eq_nocache, processProperties_nocache_app, Hdone.
  rewrite processProperties_nocache_cons in Hfails |- *.
  destruct (processProperty_nocache codeSystem imported d1) as [[[]|e0] d3] eqn:E;
    [discriminate|].
  injection Hfails as <- <-.
  apply processProperty_nocache_Throw in E. subst d3.
  repeat split.
  apply processProperties_nocache_frame in Hdone as ((_ & _ & Hv) & _). exact Hv.
Qed.

Lemma processProperties_stops_at_failure_witness :
  processProperties
    [mkImportedProperty "A" "parent" "Z"; mkImportedProperty "A" "severity" "high";
     mkImportedProperty "A" "parent" "Y"] ex_cs
    (mkDb (mkTables [mkCodingRow 1 "cs-1" "A" None] [] [] 2 1) None)
  = (Throw (badRequest "Unknown property: severity"),
     mkDb (mkTables [mkCodingRow 1 "cs-1" "A" None]
             [mkPropertyRow 1 "cs-1" "parent" "code" (Some parentProperty) None]
             [mkCodingPropertyRow 1 1 "Z" None] 2 2) None).
Proof.
  exact (proj1 (processProperties_stops_at_failure ex_cs
                  [mkImportedProperty "A" "parent" "Z"]
                  (mkImportedProperty "A" "severity" "high")
                  [mkImportedProperty "A" "parent" "Y"]
                  (mkDb (mkTables [mkCodingRow 1 "cs-1" "A" None] [] [] 2 1) None)
                  _ _ _ eq_refl eq_refl)).
Defined.

Lemma loadValues_options_witness :
  loadValues (Some "http://ex/vs") (fun _ _ => mkValueSet None) "x" = TypeError
  ∧ loadValues (Some "http://ex/vs") (fun _ _ => mkValueSet (Some (mkExpansion None))) "x"
    = TypeError
  ∧ loadValues (Some "") (fun _ _ => mkValueSet None) "x" = loaded [].
Proof.
  split; [|split].
  - apply (proj1 (loadValues_options (fun _ => "{}") (Some "http://ex/vs")
                    (fun _ _ => mkValueSet None) "x")).
    exists "http://ex/vs". split; [reflexivity|]. split; [discriminate|].
    left. reflexivity.
  - apply (proj1 (loadValues_options (fun _ => "{}") (Some "http://ex/vs")
                    (fun _ _ => mkValueSet (Some (mkExpansion None))) "x")).
    exists "http://ex/vs". split; [reflexivity|]. split; [discriminate|].
    right. reflexivity.
  - apply (proj1 (proj2 (loadValues_options (fun _ => "{}") (Some "")
                           (fun _ _ => mkValueSet None) "x"))).
    right. reflexivity.
Defined.
